(** * gsheet: a cached accessor over a spreadsheet range

    Shallow embedding of [index.ts] (class [Gsheet]) and of the helpers it
    exports ([trim], [noChange], [noFilter]).

    - JavaScript strings are modelled as Rocq strings whose characters are
      read as the code units U+0000..U+00FF.
    - Asynchronous methods are modelled as run-to-completion computations
      over an explicit [World] (remote source, log of remote calls, the two
      Keepers, the refresh timer).
    - The Keeper primitive comes from the package [@resolute/std/promise];
      its behaviour is taken from section 4.1 of the specification. *)

From Stdlib Require Import ZArith String Ascii List Lia DecimalString.
From Stdlib Require DecimalZ DecimalPos.
From stdpp Require Import base option list gmap strings.

Local Open Scope string_scope.
Local Open Scope list_scope.

(** ** JavaScript string primitives *)

Module JsString.

(** The characters matched by the regular-expression class [\s] and
    stripped by [String.prototype.trim], within U+0000..U+00FF: TAB, LF,
    VT, FF, CR, SPACE and NO-BREAK SPACE. *)
Definition is_white_space (c : ascii) : bool :=
  let n := nat_of_ascii c in
  ((9 <=? n)%nat && (n <=? 13)%nat) || (n =? 32)%nat || (n =? 160)%nat.

(** [s.replace(/\s+/g, ' ')]: scanning left to right, every maximal run
    of white space is replaced by one space.  [in_run] tells whether the
    previous character belonged to the run being replaced. *)
Fixpoint replace_ws_runs (in_run : bool) (s : list ascii) : list ascii :=
  match s with
  | [] => []
  | c :: r =>
      if is_white_space c
      then (if in_run then replace_ws_runs true r
            else " "%char :: replace_ws_runs true r)
      else c :: replace_ws_runs false r
  end.

Fixpoint trim_start (s : list ascii) : list ascii :=
  match s with
  | [] => []
  | c :: r => if is_white_space c then trim_start r else s
  end.

Definition trim_end (s : list ascii) : list ascii :=
  rev (trim_start (rev s)).

(** [s.trim()] *)
Definition trim_chars (s : list ascii) : list ascii :=
  trim_end (trim_start s).

Definition replace_ws (s : string) : string :=
  string_of_list_ascii (replace_ws_runs false (list_ascii_of_string s)).

Definition trim (s : string) : string :=
  string_of_list_ascii (trim_chars (list_ascii_of_string s)).

(** [c.toLowerCase()] on one code unit of U+0000..U+00FF: A-Z and the
    Latin-1 capitals U+00C0..U+00DE (U+00D7, the multiplication sign,
    excepted) move up by 32. *)
Definition lower_char (c : ascii) : ascii :=
  let n := nat_of_ascii c in
  if ((65 <=? n)%nat && (n <=? 90)%nat)
     || ((192 <=? n)%nat && (n <=? 222)%nat && negb (n =? 215)%nat)
  then ascii_of_nat (n + 32)
  else c.

Fixpoint toLowerCase (s : string) : string :=
  match s with
  | EmptyString => EmptyString
  | String c r => String (lower_char c) (toLowerCase r)
  end.

(** Template-literal rendering of an integral number. *)
Definition of_number (n : Z) : string :=
  NilZero.string_of_int (Z.to_int n).

(** Truthiness of a string: only the empty string is falsy. *)
Definition truthy (s : string) : bool :=
  match s with EmptyString => false | _ => true end.

End JsString.

(** ** Array primitives *)

Module JsArray.

(** [a[i]] for an integral index: [undefined] (here [None]) outside
    [0 .. length-1]. *)
Definition index {A} (a : list A) (i : Z) : option A :=
  if (0 <=? i)%Z then a !! Z.to_nat i else None.

(** [a.slice(start)]: a negative [start] counts from the end. *)
Definition slice_from {A} (a : list A) (start : Z) : list A :=
  let len := Z.of_nat (length a) in
  let k := if (start <? 0)%Z then Z.max (len + start) 0 else Z.min start len in
  drop (Z.to_nat k) a.

End JsArray.

(** ** Cell values and the exported helpers *)

(** [InputTypes = boolean | string | number | null], together with
    [undefined], which [normalizeInputData] produces for a column without a
    matching key.  Numbers are carried opaquely. *)
Inductive Value : Type :=
| VBoolean (b : bool)
| VString (s : string)
| VNumber (n : Z)
| VNull
| VUndefined.

(** [arg.replace(/\s+/g, ' ').trim()] *)
Definition trim_string (s : string) : string :=
  JsString.trim (JsString.replace_ws s).

(** [trim]: the default sanitize function. *)
Definition trim (arg : Value) : Value :=
  match arg with
  | VString s => VString (trim_string s)
  | _ => arg
  end.

Definition noChange (arg : string) : string := arg.

(** ** What the specification says about the default sanitize function *)

Module SanitizeSpec.
Import JsString.

(** The maximal white-space-free runs of a string, in order. *)
Fixpoint words (s : list ascii) : list (list ascii) :=
  match s with
  | [] => []
  | c :: r =>
      if is_white_space c then words r
      else match r with
           | [] => [[c]]
           | c' :: _ =>
               if is_white_space c' then [c] :: words r
               else match words r with
                    | w :: ws => (c :: w) :: ws
                    | [] => [[c]]
                    end
           end
  end.

(** The words separated by exactly one space, nothing before the first
    and nothing after the last. *)
Fixpoint join_space (ws : list (list ascii)) : list ascii :=
  match ws with
  | [] => []
  | [w] => w
  | w :: rest => w ++ " "%char :: join_space rest
  end.

Definition normalized (s : string) : string :=
  string_of_list_ascii (join_space (words (list_ascii_of_string s))).

End SanitizeSpec.

(** ** Errors and results *)

Inductive Error : Type :=
| RemoteError (reason : string)   (* the remote call itself throws *)
| NoDataFound                     (* 'No data found.' *)
| NoSettledValue                  (* [stale()] without a settled value *)
| HeaderRowEmpty (row : Z)        (* 'Unable to turn rows into objects. ...' *)
| UnableToAdd                     (* 'Unable to add ...' *)
| FailedToSave.                   (* 'Failed to save your information. ...' *)

(** The result of running an asynchronous method to completion.  [Blocked]
    is the case of a method that awaits a future started by another task:
    nothing in a run-to-completion execution settles it. *)
Inductive Result (A : Type) : Type :=
| Ok (a : A)
| Err (e : Error)
| Blocked.
Arguments Ok {A} a.
Arguments Err {A} e.
Arguments Blocked {A}.

Definition is_Err {A} (r : Result A) : Prop :=
  match r with Err _ => True | _ => False end.

(** ** The Keeper primitive *)

Module Keeper.

(** Modelled from the spec: the Keeper of [@resolute/std/promise], whose
    source is not part of the repository.  Section 4.1: a cache cell is
    [Empty], [Pending] or [Settled]; the time stamp of a settled value
    only serves the age tracking of the timer and is left out. *)
Inductive state (T : Type) : Type :=
| Empty
| Pending
| Settled (v : T).
Arguments Empty {T}.
Arguments Pending {T}.
Arguments Settled {T} v.

Inductive outcome (T : Type) : Type :=
| Resolved (v : T)
| Rejected (e : Error).
Arguments Resolved {T} v.
Arguments Rejected {T} e.

(** What a caller of [get()] is told to do. *)
Inductive reply (T : Type) : Type :=
| Return (v : T)   (* settled: the cached value, at once *)
| Attach           (* pending: await the future in flight *)
| Invoke.          (* empty: invoke the producer, once *)
Arguments Return {T} v.
Arguments Attach {T}.
Arguments Invoke {T}.

(** Modelled from the spec: [get()], section 4.1. *)
Definition get {T} (st : state T) : reply T * state T :=
  match st with
  | Settled v => (Return v, st)
  | Pending => (Attach, Pending)
  | Empty => (Invoke, Pending)
  end.

(** Modelled from the spec: the future in flight settles; a success is
    kept, a failure is never cached (section 4.1). *)
Definition settle {T} (o : outcome T) : state T :=
  match o with
  | Resolved v => Settled v
  | Rejected _ => Empty
  end.

(** Modelled from the spec: [stale()], section 4.1. *)
Definition stale {T} (st : state T) : option T :=
  match st with
  | Settled v => Some v
  | _ => None
  end.

(** Modelled from the spec: [fresh()], section 4.1. *)
Definition fresh {T} (st : state T) : state T := Empty.

(** Modelled from the spec: one firing of the timer installed by
    [start(intervalMs)], section 4.1: a success replaces the settled
    value, a failure leaves the previous state in place. *)
Definition refreshed {T} (o : outcome T) (st : state T) : state T :=
  match o with
  | Resolved v => Settled v
  | Rejected _ => st
  end.

(** *** Interleaved callers

    Modelled from the spec: sections 4.1 and 5.  Tasks interleave only at
    suspension points, so a Keeper shared by several tasks is a machine
    driven by events: a caller invokes [get()]; somebody calls [fresh()];
    [start(interval)] installs the timer; the timer fires and invokes the
    producer in the background; a producer invocation in flight settles.
    Nothing cancels an invocation in flight (section 5). *)
Section Interleaved.
Context {T : Type}.

(** What a producer invocation in flight is to the Keeper. *)
Inductive role : Type :=
| Tracked      (* the future the state [Pending] stands for *)
| Orphaned     (* started by [get()], then disowned by [fresh()] *)
| Background.  (* started by the timer *)

Definition is_tracked (r : role) : bool :=
  match r with Tracked => true | _ => false end.

Record flight : Type := {
  part : role;
  waiters : list nat   (* the callers attached to this future *)
}.

Record cell : Type := {
  st : state T;
  timer : option Z;                     (* the interval of [start], if any *)
  invoked : nat;                        (* invocations of the producer *)
  flying : list flight;                 (* invocations in flight, oldest first *)
  delivered : list (nat * outcome T)    (* what each caller received *)
}.

Inductive event : Type :=
| Get (caller : nat)
| Fresh
| Start (interval : Z)
| Tick
| Settle (position : nat) (o : outcome T).   (* the future at [position] of [flying] *)

(** A caller that finds the Keeper pending attaches to the tracked future. *)
Definition attach (c : nat) (f : flight) : flight :=
  if is_tracked (part f)
  then {| part := part f; waiters := waiters f ++ [c] |}
  else f.

(** [fresh()] leaves the future in flight to its waiters and disowns it. *)
Definition disown (f : flight) : flight :=
  match part f with
  | Tracked => {| part := Orphaned; waiters := waiters f |}
  | _ => f
  end.

(** The state after a future has settled.  The future of a [get()] settles
    the cell; the background call of the timer replaces the value on
    success and leaves the state on failure; for a future disowned by
    [fresh()] the specification leaves the choice open (sections 5 and 9):
    with [revive] its success still populates the cell, without, its result
    is dropped. *)
Definition landing (revive : bool) (r : role) (o : outcome T) (s : state T) : state T :=
  match r with
  | Tracked => settle o
  | Background => refreshed o s
  | Orphaned => if revive then refreshed o s else s
  end.

Definition step (revive : bool) (e : event) (k : cell) : option cell :=
  match e with
  | Get c =>
      match get (st k) with
      | (Return v, s) =>
          Some {| st := s; timer := timer k; invoked := invoked k;
                  flying := flying k;
                  delivered := delivered k ++ [(c, Resolved v)] |}
      | (Attach, s) =>
          Some {| st := s; timer := timer k; invoked := invoked k;
                  flying := map (attach c) (flying k);
                  delivered := delivered k |}
      | (Invoke, s) =>
          Some {| st := s; timer := timer k; invoked := S (invoked k);
                  flying := flying k ++ [{| part := Tracked; waiters := [c] |}];
                  delivered := delivered k |}
      end
  | Fresh =>
      Some {| st := fresh (st k); timer := timer k; invoked := invoked k;
              flying := map disown (flying k);
              delivered := delivered k |}
  | Start interval =>
      Some {| st := st k; timer := Some interval; invoked := invoked k;
              flying := flying k; delivered := delivered k |}
  | Tick =>
      match timer k with
      | None => None
      | Some _ =>
          Some {| st := st k; timer := timer k; invoked := S (invoked k);
                  flying := flying k ++ [{| part := Background; waiters := [] |}];
                  delivered := delivered k |}
      end
  | Settle n o =>
      match flying k !! n with
      | None => None
      | Some f =>
          Some {| st := landing revive (part f) o (st k); timer := timer k;
                  invoked := invoked k;
                  flying := delete n (flying k);
                  delivered := delivered k ++ map (fun c => (c, o)) (waiters f) |}
      end
  end.

Fixpoint run (revive : bool) (es : list event) (k : cell) : option cell :=
  match es with
  | [] => Some k
  | e :: rest =>
      match step revive e k with
      | Some k' => run revive rest k'
      | None => None
      end
  end.

Definition st_pending (s : state T) : bool :=
  match s with Pending => true | _ => false end.

(** Number of tracked futures among those in flight. *)
Definition tracked_count (fs : list flight) : nat :=
  length (List.filter (fun f => is_tracked (part f)) fs).

(** The state and the futures in flight agree: a pending Keeper tracks
    exactly one future, an empty one none, a settled one at most one. *)
Definition coherent (k : cell) : Prop :=
  match st k with
  | Pending => tracked_count (flying k) = 1%nat
  | Empty => tracked_count (flying k) = 0%nat
  | Settled _ => (tracked_count (flying k) <= 1)%nat
  end.

(** The events of callers of [get()] alone. *)
Definition get_or_settle (e : event) : bool :=
  match e with
  | Get _ | Settle _ _ => true
  | _ => false
  end.

(** Number of futures that settle in a trace. *)
Definition settles (es : list event) : nat :=
  length (List.filter (fun e => match e with Settle _ _ => true | _ => false end) es).

End Interleaved.
Arguments flight : clear implicits.
Arguments cell T : clear implicits.
Arguments event T : clear implicits.

End Keeper.

(** ** Rows, grids and row objects *)

Abbreviation RowArray := (list string).
Abbreviation Grid := (list (list string)).

(** A row object, a JavaScript object with string keys and string values. *)
Abbreviation RowObject := (gmap string string).

(** [noFilter] *)
Definition noFilter (arg : RowArray + RowObject) : bool := true.

(** [sanitize: <T extends InputTypes>(arg: T) => string | T].  At [T =
    string] the result type is [string]: a sanitize function maps strings to
    strings, which [sanitize_string_ok] records. *)
Record Sanitize : Type := {
  sanitize_value :> Value -> Value;
  sanitize_string : string -> string;
  sanitize_string_ok : forall s, sanitize_value (VString s) = VString (sanitize_string s)
}.

Definition trim_sanitize : Sanitize :=
  {| sanitize_value := trim;
     sanitize_string := trim_string;
     sanitize_string_ok := fun s => eq_refl |}.

(** [GSheetOptions]; an optional field left out is [None]. *)
Record GSheetOptions : Type := {
  opt_spreadsheetId : string;
  opt_range : string;
  opt_preload : option bool;
  opt_interval : option Z;
  opt_headerRows : option Z;
  opt_keyTransform : option (string -> string);
  opt_sanitize : option Sanitize;
  opt_filter : option (RowArray + RowObject -> bool)
}.

(** The fields of a [Gsheet] instance that never change after construction. *)
Record Gsheet : Type := {
  spreadsheetId : string;
  range : string;
  headerRows : Z;
  keyTransform : string -> string;
  sanitize : Sanitize;
  filter : RowArray + RowObject -> bool
}.

(** The argument of [append]: [InputRowArray | InputRowObject].  An object
    is given by [Object.entries(arg)], in that order. *)
Inductive AppendInput : Type :=
| InputRowArray (row : list Value)
| InputRowObject (entries : list (string * Value)).

(** ** The remote source *)

Inductive GetResponse : Type :=
| GetThrows (reason : string)
| GetReturns (values : option Grid).      (* [response.data.values] *)

Inductive AppendResponse : Type :=
| AppendThrows (reason : string)
| AppendReturns (updatedRows : option Z). (* [response?.data?.updates?.updatedRows] *)

(** [client.spreadsheets.values.get] and [client.spreadsheets.values.append],
    over a remote state of any kind. *)
Class RemoteSource (R : Type) : Type := {
  values_get : R -> string -> string -> GetResponse * R;
  values_append : R -> string -> string -> list Value -> AppendResponse * R
}.

(** One entry of the log of remote calls. *)
Inductive Call : Type :=
| ValuesGet (id rng : string)
| ValuesAppend (id rng : string) (row : list Value).

(** ** The world a [Gsheet] instance runs in *)

Record World (R : Type) : Type := {
  remote : R;
  calls : list Call;
  keptSheet : Keeper.state Grid;
  keptColumns : Keeper.state (list string);
  sheetTimer : option Z
}.
Arguments remote {R} w.
Arguments calls {R} w.
Arguments keptSheet {R} w.
Arguments keptColumns {R} w.
Arguments sheetTimer {R} w.

Definition set_remote {R} (r : R) (cs : list Call) (w : World R) : World R :=
  {| remote := r; calls := cs; keptSheet := keptSheet w;
     keptColumns := keptColumns w; sheetTimer := sheetTimer w |}.

Definition set_keptSheet {R} (s : Keeper.state Grid) (w : World R) : World R :=
  {| remote := remote w; calls := calls w; keptSheet := s;
     keptColumns := keptColumns w; sheetTimer := sheetTimer w |}.

Definition set_keptColumns {R} (s : Keeper.state (list string)) (w : World R) : World R :=
  {| remote := remote w; calls := calls w; keptSheet := keptSheet w;
     keptColumns := s; sheetTimer := sheetTimer w |}.

Definition set_sheetTimer {R} (t : option Z) (w : World R) : World R :=
  {| remote := remote w; calls := calls w; keptSheet := keptSheet w;
     keptColumns := keptColumns w; sheetTimer := t |}.

(** Asynchronous computations, run to completion. *)
Definition M (R A : Type) : Type := World R -> Result A * World R.

Definition ret {R A} (a : A) : M R A := fun w => (Ok a, w).

Definition throw {R A} (e : Error) : M R A := fun w => (Err e, w).

Definition bind {R A B} (m : M R A) (k : A -> M R B) : M R B :=
  fun w =>
    match m w with
    | (Ok a, w') => k a w'
    | (Err e, w') => (Err e, w')
    | (Blocked, w') => (Blocked, w')
    end.

Definition settled {R A} (r : Result A) : M R A := fun w => (r, w).

Notation "'let*' x ':=' m 'in' k" := (bind m (fun x => k))
  (at level 10, x name, m at level 100, k at level 200).

(** A Keeper held in a field of the instance. *)
Record Slot (R T : Type) : Type := {
  peek : World R -> Keeper.state T;
  poke : Keeper.state T -> World R -> World R
}.
Arguments peek {R T} s w.
Arguments poke {R T} s st w.

Definition sheetSlot {R} : Slot R Grid :=
  {| peek := keptSheet; poke := set_keptSheet |}.

Definition columnsSlot {R} : Slot R (list string) :=
  {| peek := keptColumns; poke := set_keptColumns |}.

Definition outcome_of {T} (r : Result T) : option (Keeper.outcome T) :=
  match r with
  | Ok v => Some (Keeper.Resolved v)
  | Err e => Some (Keeper.Rejected e)
  | Blocked => None
  end.

(** Modelled from the spec: [keeper.get()] (section 4.1) in a
    run-to-completion execution.  The lone caller that finds the cell empty
    runs the producer itself, the cell being [Pending] meanwhile, and
    settles the cell with what the producer gave. *)
Definition keeper_get {R T} (slot : Slot R T) (producer : M R T) : M R T :=
  fun w =>
    match Keeper.get (peek slot w) with
    | (Keeper.Return v, _) => (Ok v, w)
    | (Keeper.Attach, _) => (Blocked, w)
    | (Keeper.Invoke, s) =>
        let '(r, w') := producer (poke slot s w) in
        match outcome_of r with
        | Some o => (r, poke slot (Keeper.settle o) w')
        | None => (r, w')
        end
    end.

(** Modelled from the spec: [keeper.stale()] (section 4.1), synchronous;
    it throws without a settled value. *)
Definition keeper_stale {R T} (slot : Slot R T) : M R T :=
  fun w =>
    match Keeper.stale (peek slot w) with
    | Some v => (Ok v, w)
    | None => (Err NoSettledValue, w)
    end.

(** Modelled from the spec: [keeper.fresh()] (section 4.1). *)
Definition keeper_fresh {R T} (slot : Slot R T) : M R unit :=
  fun w => (Ok tt, poke slot (Keeper.fresh (peek slot w)) w).

(** Modelled from the spec: one firing of the timer that
    [keeper.start(interval)] installs (section 4.1). *)
Definition keeper_tick {R T} (slot : Slot R T) (producer : M R T) : M R unit :=
  fun w =>
    let '(r, w') := producer w in
    match outcome_of r with
    | Some o => (Ok tt, poke slot (Keeper.refreshed o (peek slot w')) w')
    | None => (Ok tt, w')
    end.

(** ** The class [Gsheet] *)

Section GsheetMethods.
Context {R : Type} `{RemoteSource R}.
Variable this : Gsheet.

(** [getSheet(range = this.range)] *)
Definition getSheet (rng : string) : M R Grid :=
  fun w =>
    let '(response, r') := values_get (remote w) (spreadsheetId this) rng in
    let w' := set_remote r' (calls w ++ [ValuesGet (spreadsheetId this) rng]) w in
    match response with
    | GetThrows reason => (Err (RemoteError reason), w')
    | GetReturns None => (Err NoDataFound, w')
    | GetReturns (Some values) => (Ok values, w')
    end.

(** The range of the narrow fetch: [`${range}!A${headerRows}:ZZZ${headerRows}`]. *)
Definition headerRange : string :=
  range this ++ "!A" ++ JsString.of_number (headerRows this)
             ++ ":ZZZ" ++ JsString.of_number (headerRows this).

(** The two kinds of fetch, as they appear in the log of remote calls. *)
Definition full_get : Call := ValuesGet (spreadsheetId this) (range this).
Definition header_get : Call := ValuesGet (spreadsheetId this) headerRange.

(** [getHeaderRowsOnly()] *)
Definition getHeaderRowsOnly : M R Grid := getSheet headerRange.

(** [getColumnsFromSheetCache()]: [try { stale() } catch { narrow fetch }]. *)
Definition getColumnsFromSheetCache : M R Grid :=
  fun w =>
    match keeper_stale sheetSlot w with
    | (Ok rows, w') => (Ok rows, w')
    | (_, w') => getHeaderRowsOnly w'
    end.

(** The tail of [getColumns()]: [rows[headerRows - 1]], the empty-row check
    and the two maps. *)
Definition columns_of_rows (rows : Grid) : Result (list string) :=
  match JsArray.index rows (headerRows this - 1) with
  | None | Some [] => Err (HeaderRowEmpty (headerRows this))
  | Some columns =>
      Ok (map (keyTransform this) (map (sanitize_string (sanitize this)) columns))
  end.

(** [getColumns()], the producer of the columns Keeper. *)
Definition getColumns : M R (list string) :=
  let* rows := getColumnsFromSheetCache in
  settled (columns_of_rows rows).

(** [columns()] *)
Definition columns : M R (list string) :=
  keeper_get columnsSlot getColumns.

(** The tail of [rows()]: [slice(headerRows)], sanitize every cell, filter. *)
Definition rows_of_grid (grid : Grid) : list RowArray :=
  List.filter (fun row => filter this (inl row))
    (map (fun row => map (sanitize_string (sanitize this)) row)
       (JsArray.slice_from grid (headerRows this))).

(** [rows()] *)
Definition rows : M R (list RowArray) :=
  let* rows := keeper_get sheetSlot (getSheet (range this)) in
  ret (rows_of_grid rows).

(** The body of the reducer in [data()]: [if (keys[index]) obj[keys[index]] =
    value].  Assigning to the key [__proto__] of an object literal does not
    create a property when the value is a string. *)
Definition assign_cell (keys : list string) (obj : RowObject)
    (value : string) (index : nat) : RowObject :=
  match keys !! index with
  | Some key =>
      if JsString.truthy key
      then (if String.eqb key "__proto__" then obj else <[key := value]> obj)
      else obj
  | None => obj
  end.

(** [row.reduce((obj, value, index) => ..., obj0)], from position [index]. *)
Fixpoint reduce_row (keys : list string) (index : nat) (row : RowArray)
    (obj : RowObject) : RowObject :=
  match row with
  | [] => obj
  | value :: rest => reduce_row keys (S index) rest (assign_cell keys obj value index)
  end.

Definition row_object (keys : list string) (row : RowArray) : RowObject :=
  reduce_row keys 0 row ∅.

(** The tail of [data()]: one object per row, then the filter. *)
Definition objects_of (keys : list string) (rows : list RowArray) : list RowObject :=
  List.filter (fun obj => filter this (inr obj)) (map (row_object keys) rows).

(** [data()]: the rows first, then the columns. *)
Definition data : M R (list RowObject) :=
  let* rows := rows in
  let* keys := columns in
  ret (objects_of keys rows).

(** [(entries.find(([entryKey]) => entryKey === key.toLowerCase()) || [])[1]] *)
Definition lookup_entry (entries : list (string * Value)) (key : string) : Value :=
  match List.find (fun entry => String.eqb (fst entry) (JsString.toLowerCase key)) entries with
  | Some entry => snd entry
  | None => VUndefined
  end.

(** The row [normalizeInputData] builds from the entries of an object and
    the column names: lower-case the keys, look every column up, sanitize. *)
Definition row_of_entries (obj : list (string * Value)) (columns : list string) : list Value :=
  let entries := map (fun entry => (JsString.toLowerCase (fst entry), snd entry)) obj in
  map (sanitize_value (sanitize this)) (map (lookup_entry entries) columns).

(** [normalizeInputData(arg)] *)
Definition normalizeInputData (arg : AppendInput) : M R (list Value) :=
  match arg with
  | InputRowArray row => ret row
  | InputRowObject obj =>
      let* columns := columns in
      ret (row_of_entries obj columns)
  end.

(** [!(response?.data?.updates?.updatedRows! > 0)] *)
Definition no_row_updated (updatedRows : option Z) : bool :=
  match updatedRows with
  | Some n => negb (0 <? n)%Z
  | None => true
  end.

(** The remote call of [append]. *)
Definition remote_append (row : list Value) : M R (option Z) :=
  fun w =>
    let '(response, r') := values_append (remote w) (spreadsheetId this) (range this) row in
    let w' := set_remote r' (calls w ++ [ValuesAppend (spreadsheetId this) (range this) row]) w in
    match response with
    | AppendThrows reason => (Err (RemoteError reason), w')
    | AppendReturns updatedRows => (Ok updatedRows, w')
    end.

(** [append(arg)].  The guard [if (!row)] never fires: an array is truthy. *)
Definition append (arg : AppendInput) : M R (option Z) :=
  let* row := normalizeInputData arg in
  let* response := remote_append row in
  let* _ := keeper_fresh sheetSlot in
  if no_row_updated response then throw FailedToSave else ret response.

(** [refresh()] *)
Definition refresh : M R unit := keeper_fresh sheetSlot.

(** [keepFresh(interval)]: [keptSheet.start(interval)] replaces the timer. *)
Definition keepFresh (interval : Z) : M R unit :=
  fun w => (Ok tt, set_sheetTimer (Some interval) w).

(** The timer of the grid Keeper fires, if one is installed. *)
Definition tick : M R unit :=
  fun w =>
    match sheetTimer w with
    | Some _ => keeper_tick sheetSlot (getSheet (range this)) w
    | None => (Ok tt, w)
    end.

End GsheetMethods.

(** ** Construction and the life of an instance *)

(** The defaults of [constructor(options)]. *)
Definition instance_of (options : GSheetOptions) : Gsheet :=
  {| spreadsheetId := opt_spreadsheetId options;
     range := opt_range options;
     headerRows := default 1%Z (opt_headerRows options);
     keyTransform := default noChange (opt_keyTransform options);
     sanitize := default trim_sanitize (opt_sanitize options);
     filter := default noFilter (opt_filter options) |}.

Definition truthy_flag (b : option bool) : bool := default false b.

(** A number is truthy unless it is zero (or absent). *)
Definition truthy_number (n : option Z) : bool :=
  match n with
  | Some k => negb (k =? 0)%Z
  | None => false
  end.

(** The world right after [new Gsheet(options)]: both Keepers are created
    empty; [preload] calls [refresh()], [interval] calls [keepFresh]. *)
Definition constructor {R} `{RemoteSource R} (options : GSheetOptions) (r : R) : World R :=
  let this := instance_of options in
  let w0 := {| remote := r; calls := []; keptSheet := Keeper.Empty;
               keptColumns := Keeper.Empty; sheetTimer := None |} in
  let w1 := if truthy_flag (opt_preload options) then snd (refresh w0) else w0 in
  if truthy_number (opt_interval options)
  then snd (keepFresh (default 0%Z (opt_interval options)) w1)
  else w1.

(** What can happen to an instance: a call of a public method, or the timer. *)
Inductive Op : Type :=
| CallRows
| CallColumns
| CallData
| CallAppend (arg : AppendInput)
| CallRefresh
| CallKeepFresh (interval : Z)
| TimerFires.

Definition exec {R} `{RemoteSource R} (this : Gsheet) (op : Op) (w : World R) : World R :=
  match op with
  | CallRows => snd (rows this w)
  | CallColumns => snd (columns this w)
  | CallData => snd (data this w)
  | CallAppend arg => snd (append this arg w)
  | CallRefresh => snd (refresh w)
  | CallKeepFresh interval => snd (keepFresh interval w)
  | TimerFires => snd (tick this w)
  end.

Definition exec_all {R} `{RemoteSource R} (this : Gsheet) (ops : list Op) (w : World R) : World R :=
  fold_left (fun w op => exec this op w) ops w.

(** The calls a computation adds to the log. *)
Definition calls_since {R} (w w' : World R) : list Call :=
  drop (length (calls w)) (calls w').

Definition is_get_of (id rng : string) (c : Call) : bool :=
  match c with
  | ValuesGet id' rng' => String.eqb id id' && String.eqb rng rng'
  | ValuesAppend _ _ _ => false
  end.

(** Number of full-grid fetches, and of narrow header-row fetches, in a log. *)
Definition full_fetches (this : Gsheet) (cs : list Call) : nat :=
  length (List.filter (is_get_of (spreadsheetId this) (range this)) cs).

Definition header_fetches (this : Gsheet) (cs : list Call) : nat :=
  length (List.filter (is_get_of (spreadsheetId this) (headerRange this)) cs).

(** ** A remote source to run examples on *)

(** A sheet held in memory.  The range [sheet_range] holds [content] ([None]
    when it has no values); every other range, the narrow header range
    among them, is answered with the first row alone.  [accepts] tells
    whether an append is taken ([updatedRows = 1]) or reported with zero
    updated rows. *)
Record MemorySheet : Type := {
  sheet_range : string;
  content : option Grid;
  accepts : bool
}.

Definition cell_text (v : Value) : string :=
  match v with
  | VString s => s
  | VBoolean true => "TRUE"
  | VBoolean false => "FALSE"
  | VNumber n => JsString.of_number n
  | VNull | VUndefined => EmptyString
  end.

#[export] Instance MemorySheet_remote : RemoteSource MemorySheet := {|
  values_get := fun m _ rng =>
    (GetReturns (if String.eqb rng (sheet_range m) then content m
                 else take 1 <$> content m), m);
  values_append := fun m _ _ row =>
    if accepts m
    then (AppendReturns (Some 1%Z),
          {| sheet_range := sheet_range m;
             content := Some (default [] (content m) ++ [map cell_text row]);
             accepts := true |})
    else (AppendReturns (Some 0%Z), m)
|}.

(** The options of the examples: everything optional left out. *)
Definition example_options : GSheetOptions :=
  {| opt_spreadsheetId := "sheet-1"; opt_range := "Sheet1";
     opt_preload := None; opt_interval := None; opt_headerRows := None;
     opt_keyTransform := None; opt_sanitize := None; opt_filter := None |}.

Definition example_sheet : MemorySheet :=
  {| sheet_range := "Sheet1";
     content := Some [["Name"; "Email"]; ["Ada"; "ada@x.com"]; [EmptyString; "b@x.com"]];
     accepts := true |}.

(** The same sheet behind a remote that reports zero updated rows. *)
Definition rejecting_sheet : MemorySheet :=
  {| sheet_range := "Sheet1";
     content := Some [["Name"; "Email"]; ["Ada"; "ada@x.com"]; [EmptyString; "b@x.com"]];
     accepts := false |}.

(** The options of an instance configured with [headerRows: 0]. *)
Definition zero_header_options : GSheetOptions :=
  {| opt_spreadsheetId := "sheet-1"; opt_range := "Sheet1";
     opt_preload := None; opt_interval := None; opt_headerRows := Some 0%Z;
     opt_keyTransform := None; opt_sanitize := None; opt_filter := None |}.

(** A Keeper of numbers nobody has called yet. *)
Definition idle_cell : Keeper.cell nat :=
  {| Keeper.st := Keeper.Empty; Keeper.timer := None; Keeper.invoked := 0;
     Keeper.flying := []; Keeper.delivered := [] |}.
(** ** Dates *)

(** What [gSheetDate] and [gSheetDateTime] read of a (valid) [Date]: the
    results of its six getters.  [getMonth] counts from zero. *)
Record JsDate : Type := {
  getMonth : Z;
  getDate : Z;
  getFullYear : Z;
  getHours : Z;
  getMinutes : Z;
  getSeconds : Z
}.

(** [gSheetDate(date)]:
    [`${date.getMonth() + 1}/${date.getDate()}/${date.getFullYear()}`] *)
Definition gSheetDate (date : JsDate) : string :=
  JsString.of_number (getMonth date + 1) ++ "/"
  ++ JsString.of_number (getDate date) ++ "/"
  ++ JsString.of_number (getFullYear date).

(** [gSheetDateTime(date)]:
    [`${gSheetDate(date)} ${date.getHours()}:${date.getMinutes()}:${date.getSeconds()}`] *)
Definition gSheetDateTime (date : JsDate) : string :=
  gSheetDate date ++ " "
  ++ JsString.of_number (getHours date) ++ ":"
  ++ JsString.of_number (getMinutes date) ++ ":"
  ++ JsString.of_number (getSeconds date).

(** The characters a rendered integer is made of: digits and the sign. *)
Definition numeric_char (c : ascii) : bool :=
  let n := nat_of_ascii c in
  ((48 <=? n)%nat && (n <=? 57)%nat) || (n =? 45)%nat.

Fixpoint numeric (s : string) : bool :=
  match s with
  | EmptyString => true
  | String c r => numeric_char c && numeric r
  end.

(** A string all of white space. *)
Fixpoint blank (s : string) : bool :=
  match s with
  | EmptyString => true
  | String c r => JsString.is_white_space c && blank r
  end.

(** ** The earlier implementation: [src/index.ts] as the first version had it

    The first version of the package caches the promises themselves, in the
    variables [cache] and [columnCache] of a closure, without a Keeper.  It
    is modelled under the same run-to-completion reading: a promise held in
    a variable has settled by the time a later call awaits it. *)

Module Legacy.

(** The errors of this version: those above, and the one of the guard in
    [_columns]. *)
Inductive LegacyError : Type :=
| Common (e : Error)
| HeaderRowsNotPositive.   (* 'Unable to turn rows into objects without a `headerRows` > 0' *)

(** A promise that has settled. *)
Inductive Promise (A : Type) : Type :=
| Fulfilled (v : A)
| Rejected (e : LegacyError).
Arguments Fulfilled {A} v.
Arguments Rejected {A} e.

(** [RowArray = any[]]: the cached grid holds what the remote returned,
    strings, and the rows that [append] pushes onto it, of any input value. *)
Abbreviation AnyRow := (list Value).

Definition of_grid (values : Grid) : list AnyRow := map (map VString) values.

(** [RowObject = { [key: string]: any }], built from the literal [{}]: its
    own properties, and whether an assignment of [null] to [__proto__] has
    taken its prototype away. *)
Record JsObject : Type := {
  own : gmap string Value;
  null_prototype : bool
}.

Definition empty_object : JsObject := {| own := ∅; null_prototype := false |}.

(** The variables of the closure, with the remote and the log of calls. *)
Record State (R : Type) : Type := {
  remote : R;
  calls : list Call;
  cache : option (Promise (list AnyRow));
  columnCache : option (Promise (option RowArray));
  timer : option Z
}.
Arguments remote {R} s.
Arguments calls {R} s.
Arguments cache {R} s.
Arguments columnCache {R} s.
Arguments timer {R} s.

Definition LM (R A : Type) : Type := State R -> Promise A * State R.

Definition lbind {R A B} (m : LM R A) (k : A -> LM R B) : LM R B :=
  fun s =>
    match m s with
    | (Fulfilled a, s') => k a s'
    | (Rejected e, s') => (Rejected e, s')
    end.

Notation "'let+' x ':=' m 'in' k" := (lbind m (fun x => k))
  (at level 10, x name, m at level 100, k at level 200).

Section Closure.
Context {R : Type} `{RemoteSource R}.

(** The destructured options, defaults applied; [filter] is not an option
    of this version and is not used. *)
Variable this : Gsheet.

(** [_fetch(rangeOverride = range)] *)
Definition _fetch (rng : string) : LM R Grid :=
  fun s =>
    let '(response, r') := values_get (remote s) (spreadsheetId this) rng in
    let s' := {| remote := r';
                 calls := calls s ++ [ValuesGet (spreadsheetId this) rng];
                 cache := cache s; columnCache := columnCache s; timer := timer s |} in
    match response with
    | GetThrows reason => (Rejected (Common (RemoteError reason)), s')
    | GetReturns None => (Rejected (Common NoDataFound), s')
    | GetReturns (Some values) => (Fulfilled values, s')
    end.

(** [promise.then(f)] on a settled promise. *)
Definition then_ {A B} (p : Promise A) (f : A -> B) : Promise B :=
  match p with
  | Fulfilled v => Fulfilled (f v)
  | Rejected e => Rejected e
  end.

(** The synchronous part of [refresh()]: [cache = _fetch()] and, when
    [headerRows > 0], [columnCache = cache.then(rows => rows[headerRows - 1])].
    It yields the promise of the fetch. *)
Definition start_refresh : State R -> Promise Grid * State R :=
  fun s =>
    let '(fetched, s1) := _fetch (range this) s in
    (fetched,
     {| remote := remote s1; calls := calls s1;
        cache := Some (then_ fetched of_grid);
        columnCache :=
          if (0 <? headerRows this)%Z
          then Some (then_ fetched (fun rows => JsArray.index rows (headerRows this - 1)))
          else columnCache s1;
        timer := timer s1 |}).

(** [refresh()]: the above, then [await cache]. *)
Definition refresh : LM R unit :=
  fun s =>
    let '(fetched, s') := start_refresh s in
    (then_ fetched (fun _ => tt), s').

(** [_raw()]: [if (!cache) refresh(); return cache!] *)
Definition _raw : LM R (list AnyRow) :=
  fun s =>
    match cache s with
    | Some cached => (cached, s)
    | None =>
        let '(fetched, s') := start_refresh s in
        (then_ fetched of_grid, s')
    end.

(** The promise [_columns()] awaits: [columnCache], set from a narrow fetch
    when it is not set yet. *)
Definition column_promise : State R -> Promise (option RowArray) * State R :=
  fun s =>
    match columnCache s with
    | Some cached => (cached, s)
    | None =>
        let '(fetched, s1) := _fetch (headerRange this) s in
        let header := then_ fetched (fun rows => JsArray.index rows (headerRows this - 1)) in
        (header,
         {| remote := remote s1; calls := calls s1; cache := cache s1;
            columnCache := Some header; timer := timer s1 |})
    end.

(** [_columns()] *)
Definition _columns : LM R (list string) :=
  fun s =>
    if negb (0 <? headerRows this)%Z then (Rejected HeaderRowsNotPositive, s)
    else
      let '(header, s') := column_promise s in
      match header with
      | Fulfilled (Some (c :: columns)) =>
          (Fulfilled (map (keyTransform this)
                        (map (sanitize_string (sanitize this)) (c :: columns))), s')
      | Fulfilled _ => (Rejected (Common (HeaderRowEmpty (headerRows this))), s')
      | Rejected e => (Rejected e, s')
      end.

(** [rows()] *)
Definition rows : LM R (list AnyRow) :=
  let+ raw := _raw in
  fun s => (Fulfilled (map (fun row => map (sanitize_value (sanitize this)) row)
                         (JsArray.slice_from raw (headerRows this))), s).

(** [obj[key] = value] on an object that started as [{}].  While the
    object has its prototype, assigning to [__proto__] runs the inherited
    setter: [null] takes the prototype away, any other cell value is
    ignored; after that, [__proto__] is a property like another. *)
Definition assign (obj : JsObject) (key : string) (value : Value) : JsObject :=
  if String.eqb key "__proto__" && negb (null_prototype obj)
  then match value with
       | VNull => {| own := own obj; null_prototype := true |}
       | _ => obj
       end
  else {| own := <[key := value]> (own obj); null_prototype := null_prototype obj |}.

(** The property key [keys[index]] is used as: the name, or the string
    [undefined] when there is no column at that index. *)
Definition property_key (keys : list string) (index : nat) : string :=
  default "undefined" (keys !! index).

(** [row.reduce((obj, value, index) => { obj[keys[index]] = value; return obj }, obj0)] *)
Fixpoint reduce_row (keys : list string) (index : nat) (row : AnyRow) (obj : JsObject)
    : JsObject :=
  match row with
  | [] => obj
  | value :: rest =>
      reduce_row keys (S index) rest (assign obj (property_key keys index) value)
  end.

(** [data()]: the columns first, then the rows; every cell, already
    sanitized by [rows()], is sanitized again. *)
Definition data : LM R (list JsObject) :=
  let+ keys := _columns in
  let+ rows := rows in
  fun s => (Fulfilled
              (map (fun row =>
                      reduce_row keys 0 (map (sanitize_value (sanitize this)) row)
                        empty_object) rows), s).

(** [keepFresh(timeout)]: the timer is replaced. *)
Definition keepFresh (timeout : Z) : LM R unit :=
  fun s => (Fulfilled tt,
            {| remote := remote s; calls := calls s; cache := cache s;
               columnCache := columnCache s; timer := Some timeout |}).

(** The callback of the timer: a fetch that replaces [cache] when it
    succeeds and is only reported when it fails. *)
Definition tick : LM R unit :=
  fun s =>
    match timer s with
    | None => (Fulfilled tt, s)
    | Some _ =>
        let '(fetched, s1) := _fetch (range this) s in
        match fetched with
        | Fulfilled values =>
            (Fulfilled tt,
             {| remote := remote s1; calls := calls s1;
                cache := Some (Fulfilled (of_grid values));
                columnCache := columnCache s1; timer := timer s1 |})
        | Rejected _ => (Fulfilled tt, s1)
        end
    end.

(** The row [append] builds from its argument. *)
Definition input_row (arg : AppendInput) : LM R AnyRow :=
  match arg with
  | InputRowArray row => fun s => (Fulfilled row, s)
  | InputRowObject obj =>
      let+ columns := _columns in
      fun s => (Fulfilled (row_of_entries this obj columns), s)
  end.

(** [append(arg)] *)
Definition append (arg : AppendInput) : LM R (option Z) :=
  let+ row := input_row arg in
  fun s =>
    let '(response, r') := values_append (remote s) (spreadsheetId this) (range this) row in
    let s1 := {| remote := r';
                 calls := calls s ++ [ValuesAppend (spreadsheetId this) (range this) row];
                 cache := cache s; columnCache := columnCache s; timer := timer s |} in
    match response with
    | AppendThrows reason => (Rejected (Common (RemoteError reason)), s1)
    | AppendReturns updatedRows =>
        match cache s1 with
        | Some (Rejected e) => (Rejected e, s1)
        | cached =>
            let s2 := {| remote := remote s1; calls := calls s1;
                         cache := match cached with
                                  | Some (Fulfilled grid) => Some (Fulfilled (grid ++ [row]))
                                  | _ => cached
                                  end;
                         columnCache := columnCache s1; timer := timer s1 |} in
            if no_row_updated updatedRows
            then (Rejected (Common FailedToSave), s2)
            else (Fulfilled updatedRows, s2)
        end
    end.

End Closure.

(** [gsheet(options)]: the closure right after it is created.  [preload]
    defaults to [true] and calls [refresh()]; a truthy [interval] calls
    [keepFresh(interval)]. *)
Definition create {R} `{RemoteSource R} (options : GSheetOptions) (r : R) : State R :=
  let this := instance_of options in
  let s0 := {| remote := r; calls := []; cache := None; columnCache := None;
               timer := None |} in
  let s1 := if default true (opt_preload options) then snd (refresh this s0) else s0 in
  if truthy_number (opt_interval options)
  then snd (keepFresh (default 0%Z (opt_interval options)) s1)
  else s1.

(** The calls a computation adds to the log. *)
Definition calls_since {R} (s s' : State R) : list Call :=
  drop (length (calls s)) (calls s').

End Legacy.

(** Options that leave the preload out of the way. *)
Definition cold_options : GSheetOptions :=
  {| opt_spreadsheetId := "sheet-1"; opt_range := "Sheet1";
     opt_preload := Some false; opt_interval := None; opt_headerRows := None;
     opt_keyTransform := None; opt_sanitize := None; opt_filter := None |}.

(** A remote whose range holds no values: every fetch fails with 'No data
    found.', while appends are accepted. *)
Definition empty_sheet : MemorySheet :=
  {| sheet_range := "Sheet1"; content := None; accepts := true |}.

(** * Proofs *)

(** ** The default sanitize function *)

Section TrimProofs.
Import JsString SanitizeSpec.

Lemma replace_ws_runs_in_run (s : list ascii) :
  replace_ws_runs true s = replace_ws_runs false (trim_start s).
Proof.
  induction s as [|c r IH]; simpl; [reflexivity|].
  destruct (is_white_space c) eqn:Hc; simpl.
  - exact IH.
  - rewrite Hc. reflexivity.
Qed.

Lemma trim_start_replace_ws_runs (b : bool) (s : list ascii) :
  trim_start (replace_ws_runs b s) = replace_ws_runs false (trim_start s).
Proof.
  revert b. induction s as [|c r IH]; intros b; simpl; [reflexivity|].
  destruct (is_white_space c) eqn:Hc.
  - destruct b; simpl; apply IH.
  - simpl. rewrite Hc. reflexivity.
Qed.

Lemma trim_start_snoc (a : list ascii) (c : ascii) :
  trim_start (a ++ [c]) =
  match trim_start a with
  | [] => if is_white_space c then [] else [c]
  | t => t ++ [c]
  end.
Proof.
  induction a as [|x a IH]; simpl.
  - destruct (is_white_space c); reflexivity.
  - destruct (is_white_space x); [exact IH | reflexivity].
Qed.

Lemma trim_end_cons (c : ascii) (x : list ascii) :
  trim_end (c :: x) =
  match trim_end x with
  | [] => if is_white_space c then [] else [c]
  | t => c :: t
  end.
Proof.
  unfold trim_end. simpl. rewrite trim_start_snoc.
  destruct (trim_start (rev x)) as [|y t]; simpl.
  - destruct (is_white_space c); reflexivity.
  - rewrite rev_app_distr. simpl.
    destruct (rev t ++ [y]) eqn:E; [|reflexivity].
    destruct (rev t); discriminate.
Qed.

Lemma words_nonempty_words (s : list ascii) :
  Forall (fun w => w <> []) (words s).
Proof.
  induction s as [|c r IH]; simpl; [constructor|].
  destruct (is_white_space c); [exact IH|].
  destruct r as [|c' r']; [repeat constructor; discriminate|].
  destruct (is_white_space c').
  - constructor; [discriminate | exact IH].
  - destruct (words (c' :: r')) as [|w ws]; [repeat constructor; discriminate|].
    inversion IH; subst. constructor; [discriminate | assumption].
Qed.

Lemma words_head_not_space (c : ascii) (r : list ascii) :
  is_white_space c = false -> words (c :: r) <> [].
Proof.
  intros Hc. simpl. rewrite Hc.
  destruct r as [|c' r']; [discriminate|].
  destruct (is_white_space c'); [discriminate|].
  destruct (words (c' :: r')); discriminate.
Qed.

Lemma join_space_nil (ws : list (list ascii)) :
  Forall (fun w => w <> []) ws -> join_space ws = [] -> ws = [].
Proof.
  intros Hne Hj. destruct ws as [|w rest]; [reflexivity|].
  inversion Hne; subst. simpl in Hj.
  destruct rest; [contradiction|].
  destruct w; [contradiction | discriminate].
Qed.

Lemma join_space_cons_head (c : ascii) (w : list ascii) (ws : list (list ascii)) :
  join_space ((c :: w) :: ws) = c :: join_space (w :: ws).
Proof. simpl. destruct ws; reflexivity. Qed.

Lemma trim_replace_words (s : list ascii) :
  trim_end (replace_ws_runs false (trim_start s)) = join_space (words s).
Proof.
  induction s as [|c r IH]; [reflexivity|].
  destruct (is_white_space c) eqn:Hc.
  - simpl. rewrite Hc. exact IH.
  - cbn [trim_start]. rewrite Hc. cbn [replace_ws_runs]. rewrite Hc.
    rewrite trim_end_cons, Hc.
    destruct r as [|c' r']; [simpl; rewrite Hc; reflexivity|].
    destruct (is_white_space c') eqn:Hc'.
    + cbn [replace_ws_runs]. rewrite Hc'.
      rewrite trim_end_cons. change (is_white_space " "%char) with true.
      rewrite replace_ws_runs_in_run.
      assert (Hr : trim_start (c' :: r') = trim_start r') by (simpl; rewrite Hc'; reflexivity).
      rewrite Hr in IH. rewrite IH.
      assert (Hw : words (c :: c' :: r') = [c] :: words (c' :: r')).
      { cbn [words]. rewrite Hc, Hc'. reflexivity. }
      rewrite Hw.
      destruct (join_space (words (c' :: r'))) as [|y t] eqn:Ej.
      * apply join_space_nil in Ej; [|apply words_nonempty_words].
        rewrite Ej. reflexivity.
      * destruct (words (c' :: r')) as [|w ws]; [discriminate|].
        cbn [join_space app]. rewrite <- Ej. reflexivity.
    + assert (Hr : trim_start (c' :: r') = c' :: r') by (simpl; rewrite Hc'; reflexivity).
      rewrite Hr in IH. rewrite IH.
      assert (Hw : words (c :: c' :: r') =
                   match words (c' :: r') with w :: ws => (c :: w) :: ws | [] => [[c]] end).
      { cbn [words]. rewrite Hc, Hc'. reflexivity. }
      rewrite Hw.
      pose proof (words_head_not_space c' r' Hc') as Hne.
      pose proof (words_nonempty_words (c' :: r')) as Hall.
      destruct (words (c' :: r')) as [|w ws]; [contradiction|].
      rewrite join_space_cons_head.
      destruct (join_space (w :: ws)) eqn:Ej; [|reflexivity].
      apply join_space_nil in Ej; [discriminate | assumption].
Qed.

Lemma words_no_space (s : list ascii) :
  Forall (fun w => Forall (fun c => is_white_space c = false) w) (words s).
Proof.
  induction s as [|c r IH]; simpl; [constructor|].
  destruct (is_white_space c) eqn:Hc; [exact IH|].
  destruct r as [|c' r']; [repeat constructor; assumption|].
  destruct (is_white_space c').
  - constructor; [repeat constructor; assumption | exact IH].
  - destruct (words (c' :: r')) as [|w ws]; [repeat constructor; assumption|].
    inversion IH; subst. constructor; [constructor; assumption | assumption].
Qed.

Lemma words_concat (s : list ascii) :
  concat (words s) = List.filter (fun c => negb (is_white_space c)) s.
Proof.
  induction s as [|c r IH]; [reflexivity|].
  cbn [words List.filter].
  destruct (is_white_space c) eqn:Hc; simpl; [exact IH|].
  destruct r as [|c' r']; [reflexivity|].
  destruct (is_white_space c') eqn:Hc'.
  - simpl. simpl in IH. rewrite Hc' in *. simpl in *. rewrite IH. reflexivity.
  - pose proof (words_head_not_space c' r' Hc') as Hne.
    destruct (words (c' :: r')) as [|w ws]; [contradiction|].
    simpl. simpl in IH. rewrite IH. reflexivity.
Qed.

Lemma trim_string_normalized (s : string) :
  trim_string s = normalized s.
Proof.
  unfold trim_string, JsString.trim, replace_ws, normalized, trim_chars.
  rewrite list_ascii_of_string_of_list_ascii.
  rewrite trim_start_replace_ws_runs, trim_replace_words. reflexivity.
Qed.

Lemma join_words_head (l : list ascii) (c : ascii) (t : list ascii) :
  join_space (words l) = c :: t -> is_white_space c = false.
Proof.
  intros E.
  pose proof (words_nonempty_words l) as Hne.
  pose proof (words_no_space l) as Hns.
  destruct (words l) as [|w ws]; [discriminate|].
  inversion Hne; subst. inversion Hns; subst.
  destruct w as [|c' w']; [contradiction|].
  rewrite join_space_cons_head in E. inversion E; subst.
  match goal with Hw : Forall _ (c :: w') |- _ => inversion Hw; assumption end.
Qed.

End TrimProofs.

(** What [trim] returns never starts with white space. *)
Lemma trim_no_leading_space (u : Value) (c : ascii) (s : string) :
  trim u = VString (String c s) -> JsString.is_white_space c = false.
Proof.
  destruct u as [b|s0|n| |]; simpl; try discriminate.
  intros E. inversion E as [E']. rewrite trim_string_normalized in E'.
  unfold SanitizeSpec.normalized in E'.
  apply (f_equal list_ascii_of_string) in E'.
  rewrite list_ascii_of_string_of_list_ascii in E'. simpl in E'.
  exact (join_words_head _ _ _ E').
Qed.

(** C9.  The default sanitize function [trim] maps every string to its
    white-space-free words (the maximal runs without white space, newlines
    included among the white space) joined by single spaces, with nothing
    before the first word and nothing after the last; it returns every value
    that is not a string (a boolean, a number, null, undefined) unchanged; and it maps
    ["  multi   space \n text "] to ["multi space text"]. *)
Theorem trim_collapses_and_trims :
  (forall s : string,
      trim (VString s) = VString (SanitizeSpec.normalized s)
      /\ Forall (fun w => w <> [] /\ Forall (fun c => JsString.is_white_space c = false) w)
           (SanitizeSpec.words (list_ascii_of_string s))
      /\ concat (SanitizeSpec.words (list_ascii_of_string s))
         = List.filter (fun c => negb (JsString.is_white_space c)) (list_ascii_of_string s))
  /\ (forall (b : bool) (n : Z),
        trim (VBoolean b) = VBoolean b /\ trim (VNumber n) = VNumber n
        /\ trim VNull = VNull /\ trim VUndefined = VUndefined)
  /\ trim (VString ("  multi   space " ++ String "010" " text "))
     = VString "multi space text".
Proof.
  split; [|split].
  - intros s. split; [|split].
    + simpl. f_equal. apply trim_string_normalized.
    + apply Forall_forall. intros w Hw. split.
      * pose proof (words_nonempty_words (list_ascii_of_string s)) as Hall.
        rewrite Forall_forall in Hall. apply Hall, Hw.
      * pose proof (words_no_space (list_ascii_of_string s)) as Hall.
        rewrite Forall_forall in Hall. apply Hall, Hw.
    + apply words_concat.
  - intros b n. repeat split.
  - reflexivity.
Qed.

(** ** The methods of [Gsheet], step by step *)

Ltac unfold_methods :=
  unfold append, data, rows, columns, normalizeInputData, remote_append,
    getColumns, getColumnsFromSheetCache, getHeaderRowsOnly, getSheet,
    refresh, keepFresh, tick, keeper_get, keeper_stale, keeper_fresh,
    keeper_tick, outcome_of, bind, ret, throw, settled in *.

Ltac break_match :=
  repeat match goal with
    | |- context [match ?x with _ => _ end] => destruct x eqn:?; simpl in *
    end.

Lemma calls_since_app {R} (w w' : World R) (d : list Call) :
  calls w' = calls w ++ d -> calls_since w w' = d.
Proof.
  intros E. unfold calls_since. rewrite E. apply drop_app_length.
Qed.

Lemma calls_since_refl {R} (w : World R) : calls_since w w = [].
Proof. apply calls_since_app. rewrite app_nil_r. reflexivity. Qed.

Lemma string_app_length (a b : string) :
  String.length (a ++ b) = (String.length a + String.length b)%nat.
Proof. induction a as [|c a IH]; simpl; [reflexivity | rewrite IH; reflexivity]. Qed.

Lemma headerRange_not_range (this : Gsheet) : headerRange this <> range this.
Proof.
  intros E. apply (f_equal String.length) in E. unfold headerRange in E.
  rewrite !string_app_length in E. simpl in E. lia.
Qed.

Lemma headerRange_eqb (this : Gsheet) :
  String.eqb (headerRange this) (range this) = false.
Proof. apply String.eqb_neq, headerRange_not_range. Qed.


Section GsheetProofs.
Context {R : Type} `{RemoteSource R}.
Variable this : Gsheet.

Lemma full_fetches_full_get : full_fetches this [full_get this] = 1%nat.
Proof.
  unfold full_fetches, full_get. simpl. rewrite !String.eqb_refl. reflexivity.
Qed.

Lemma header_fetches_full_get : header_fetches this [full_get this] = 0%nat.
Proof.
  unfold header_fetches, full_get. simpl.
  rewrite headerRange_eqb, andb_false_r. reflexivity.
Qed.



(** *** [getSheet] *)

Lemma getSheet_calls (rng : string) (w : World R) :
  calls (snd (getSheet this rng w)) = calls w ++ [ValuesGet (spreadsheetId this) rng].
Proof. unfold_methods. break_match; reflexivity. Qed.

Lemma getSheet_frame (rng : string) (w : World R) :
  keptSheet (snd (getSheet this rng w)) = keptSheet w
  /\ keptColumns (snd (getSheet this rng w)) = keptColumns w
  /\ sheetTimer (snd (getSheet this rng w)) = sheetTimer w.
Proof. unfold_methods. break_match; repeat split. Qed.

Lemma getSheet_not_blocked (rng : string) (w : World R) :
  fst (getSheet this rng w) <> Blocked.
Proof. unfold_methods. break_match; discriminate. Qed.

(** *** [getColumns], the producer of the columns Keeper *)

Lemma getColumns_settled (w : World R) (g : Grid) :
  keptSheet w = Keeper.Settled g ->
  getColumns this w = (columns_of_rows this g, w).
Proof. intros E. unfold_methods. simpl. rewrite E. reflexivity. Qed.

Lemma getColumns_unsettled (w : World R) :
  Keeper.stale (keptSheet w) = None ->
  getColumns this w =
  (match fst (getSheet this (headerRange this) w) with
   | Ok g => columns_of_rows this g
   | Err e => Err e
   | Blocked => Blocked
   end, snd (getSheet this (headerRange this) w)).
Proof.
  intros E. unfold getColumns, getColumnsFromSheetCache, keeper_stale, bind,
    getHeaderRowsOnly, settled. simpl. rewrite E.
  destruct (getSheet this (headerRange this) w) as [[g|e|] w']; reflexivity.
Qed.

Lemma getColumns_frame (w : World R) :
  keptSheet (snd (getColumns this w)) = keptSheet w
  /\ keptColumns (snd (getColumns this w)) = keptColumns w
  /\ sheetTimer (snd (getColumns this w)) = sheetTimer w.
Proof.
  destruct (Keeper.stale (keptSheet w)) as [g|] eqn:E.
  - destruct (keptSheet w) eqn:Ek; try discriminate. inversion E; subst.
    rewrite (getColumns_settled w g Ek). simpl. rewrite Ek. repeat split.
  - rewrite (getColumns_unsettled w E). simpl. apply getSheet_frame.
Qed.

Lemma getColumns_not_blocked (w : World R) :
  fst (getColumns this w) <> Blocked.
Proof.
  destruct (Keeper.stale (keptSheet w)) as [g|] eqn:E.
  - destruct (keptSheet w) eqn:Ek; try discriminate. inversion E; subst.
    rewrite (getColumns_settled w g Ek). simpl.
    unfold columns_of_rows. break_match; discriminate.
  - rewrite (getColumns_unsettled w E). simpl.
    pose proof (getSheet_not_blocked (headerRange this) w) as Hb.
    destruct (fst (getSheet this (headerRange this) w)); try congruence.
    unfold columns_of_rows. break_match; discriminate.
Qed.

Lemma getColumns_calls_settled (w : World R) (g : Grid) :
  keptSheet w = Keeper.Settled g -> calls (snd (getColumns this w)) = calls w.
Proof. intros E. rewrite (getColumns_settled w g E). reflexivity. Qed.

Lemma getColumns_calls_unsettled (w : World R) :
  Keeper.stale (keptSheet w) = None ->
  calls (snd (getColumns this w)) = calls w ++ [header_get this].
Proof. intros E. rewrite (getColumns_unsettled w E). simpl. apply getSheet_calls. Qed.

(** *** [columns] *)

Lemma columns_settled (w : World R) (cs : list string) :
  keptColumns w = Keeper.Settled cs -> columns this w = (Ok cs, w).
Proof. intros E. unfold columns, keeper_get. simpl. rewrite E. reflexivity. Qed.

Lemma columns_pending (w : World R) :
  keptColumns w = Keeper.Pending -> columns this w = (Blocked, w).
Proof. intros E. unfold columns, keeper_get. simpl. rewrite E. reflexivity. Qed.

Lemma columns_empty (w : World R) :
  keptColumns w = Keeper.Empty ->
  columns this w =
  (fst (getColumns this (set_keptColumns Keeper.Pending w)),
   match fst (getColumns this (set_keptColumns Keeper.Pending w)) with
   | Ok cs => set_keptColumns (Keeper.Settled cs)
                (snd (getColumns this (set_keptColumns Keeper.Pending w)))
   | Err _ => set_keptColumns Keeper.Empty
                (snd (getColumns this (set_keptColumns Keeper.Pending w)))
   | Blocked => snd (getColumns this (set_keptColumns Keeper.Pending w))
   end).
Proof.
  intros E. unfold columns, keeper_get. simpl. rewrite E. simpl.
  destruct (getColumns this (set_keptColumns Keeper.Pending w)) as [[cs|e|] w'];
    reflexivity.
Qed.

Lemma columns_frame (w : World R) :
  keptSheet (snd (columns this w)) = keptSheet w
  /\ sheetTimer (snd (columns this w)) = sheetTimer w.
Proof.
  destruct (keptColumns w) as [| |cs] eqn:E.
  - rewrite (columns_empty w E). simpl.
    pose proof (getColumns_frame (set_keptColumns Keeper.Pending w)) as (Hs & _ & Ht).
    simpl in Hs, Ht.
    destruct (fst (getColumns this (set_keptColumns Keeper.Pending w))); simpl; auto.
  - rewrite (columns_pending w E). auto.
  - rewrite (columns_settled w cs E). auto.
Qed.

Lemma columns_calls (w : World R) :
  calls (snd (columns this w)) =
  calls w ++
  match keptColumns w, Keeper.stale (keptSheet w) with
  | Keeper.Empty, None => [header_get this]
  | _, _ => []
  end.
Proof.
  destruct (keptColumns w) as [| |cs] eqn:E.
  - rewrite (columns_empty w E). simpl.
    assert (Hc : calls (snd (getColumns this (set_keptColumns Keeper.Pending w)))
                 = calls w ++ match Keeper.stale (keptSheet w) with
                              | None => [header_get this] | Some _ => [] end).
    { destruct (Keeper.stale (keptSheet w)) as [g|] eqn:Es.
      - destruct (keptSheet w) eqn:Ek; try discriminate. inversion Es; subst.
        rewrite (getColumns_calls_settled _ g); [simpl; rewrite app_nil_r; reflexivity | exact Ek].
      - rewrite getColumns_calls_unsettled; [reflexivity | exact Es]. }
    destruct (fst (getColumns this (set_keptColumns Keeper.Pending w))); simpl; exact Hc.
  - rewrite (columns_pending w E). simpl. rewrite app_nil_r. reflexivity.
  - rewrite (columns_settled w cs E). simpl. rewrite app_nil_r. reflexivity.
Qed.

Lemma columns_keeps_settled (w : World R) (cs : list string) :
  keptColumns w = Keeper.Settled cs ->
  keptColumns (snd (columns this w)) = Keeper.Settled cs.
Proof. intros E. rewrite (columns_settled w cs E). exact E. Qed.

(** *** [rows] *)

Lemma rows_settled (w : World R) (g : Grid) :
  keptSheet w = Keeper.Settled g -> rows this w = (Ok (rows_of_grid this g), w).
Proof. intros E. unfold rows, keeper_get, bind, ret. simpl. rewrite E. reflexivity. Qed.

Lemma rows_pending (w : World R) :
  keptSheet w = Keeper.Pending -> rows this w = (Blocked, w).
Proof. intros E. unfold rows, keeper_get, bind, ret. simpl. rewrite E. reflexivity. Qed.

Lemma rows_empty (w : World R) :
  keptSheet w = Keeper.Empty ->
  rows this w =
  match fst (getSheet this (range this) (set_keptSheet Keeper.Pending w)) with
  | Ok g => (Ok (rows_of_grid this g),
             set_keptSheet (Keeper.Settled g)
               (snd (getSheet this (range this) (set_keptSheet Keeper.Pending w))))
  | Err e => (Err e,
              set_keptSheet Keeper.Empty
                (snd (getSheet this (range this) (set_keptSheet Keeper.Pending w))))
  | Blocked => (Blocked, snd (getSheet this (range this) (set_keptSheet Keeper.Pending w)))
  end.
Proof.
  intros E. unfold rows, keeper_get, bind, ret. simpl. rewrite E. simpl.
  destruct (getSheet this (range this) (set_keptSheet Keeper.Pending w)) as [[g|e|] w'];
    reflexivity.
Qed.

Lemma rows_frame (w : World R) :
  keptColumns (snd (rows this w)) = keptColumns w
  /\ sheetTimer (snd (rows this w)) = sheetTimer w.
Proof.
  destruct (keptSheet w) as [| |g] eqn:E.
  - rewrite (rows_empty w E).
    pose proof (getSheet_frame (range this) (set_keptSheet Keeper.Pending w)) as (_ & Hc & Ht).
    simpl in Hc, Ht.
    destruct (fst (getSheet this (range this) (set_keptSheet Keeper.Pending w))); simpl; auto.
  - rewrite (rows_pending w E). auto.
  - rewrite (rows_settled w g E). auto.
Qed.

Lemma rows_calls (w : World R) :
  calls (snd (rows this w)) =
  calls w ++ match keptSheet w with Keeper.Empty => [full_get this] | _ => [] end.
Proof.
  destruct (keptSheet w) as [| |g] eqn:E.
  - rewrite (rows_empty w E).
    pose proof (getSheet_calls (range this) (set_keptSheet Keeper.Pending w)) as Hc.
    simpl in Hc.
    destruct (fst (getSheet this (range this) (set_keptSheet Keeper.Pending w))); simpl; exact Hc.
  - rewrite (rows_pending w E). simpl. rewrite app_nil_r. reflexivity.
  - rewrite (rows_settled w g E). simpl. rewrite app_nil_r. reflexivity.
Qed.

(** After [rows()] has resolved, the grid Keeper holds a settled value. *)
Lemma rows_ok_settles (w : World R) (rs : list RowArray) :
  fst (rows this w) = Ok rs ->
  exists g, keptSheet (snd (rows this w)) = Keeper.Settled g.
Proof.
  destruct (keptSheet w) as [| |g] eqn:E.
  - rewrite (rows_empty w E).
    destruct (fst (getSheet this (range this) (set_keptSheet Keeper.Pending w))) as [g|e|];
      simpl; intros Hr; try discriminate. exists g. reflexivity.
  - rewrite (rows_pending w E). discriminate.
  - rewrite (rows_settled w g E). simpl. intros _. exists g. exact E.
Qed.

(** After [rows()] has failed on an empty grid Keeper, the Keeper is empty again. *)
Lemma rows_keptSheet_from_empty (w : World R) :
  keptSheet w = Keeper.Empty ->
  keptSheet (snd (rows this w)) =
  match fst (getSheet this (range this) (set_keptSheet Keeper.Pending w)) with
  | Ok g => Keeper.Settled g
  | Err _ => Keeper.Empty
  | Blocked => Keeper.Pending
  end.
Proof.
  intros E. rewrite (rows_empty w E).
  pose proof (getSheet_frame (range this) (set_keptSheet Keeper.Pending w)) as (Hs & _).
  destruct (fst (getSheet this (range this) (set_keptSheet Keeper.Pending w)));
    simpl; auto.
Qed.

(** *** [data] *)

Lemma data_unfold (w : World R) :
  data this w =
  match fst (rows this w) with
  | Ok rs =>
      match fst (columns this (snd (rows this w))) with
      | Ok ks => (Ok (objects_of this ks rs), snd (columns this (snd (rows this w))))
      | Err e => (Err e, snd (columns this (snd (rows this w))))
      | Blocked => (Blocked, snd (columns this (snd (rows this w))))
      end
  | Err e => (Err e, snd (rows this w))
  | Blocked => (Blocked, snd (rows this w))
  end.
Proof.
  unfold data, bind, ret.
  destruct (rows this w) as [[rs|e|] w1]; simpl; try reflexivity.
  destruct (columns this w1) as [[ks|e|] w2]; reflexivity.
Qed.

Lemma data_calls_from_empty (w : World R) :
  keptSheet w = Keeper.Empty ->
  calls (snd (data this w)) = calls w ++ [full_get this].
Proof.
  intros E. rewrite data_unfold.
  pose proof (rows_calls w) as Hc. rewrite E in Hc.
  destruct (fst (rows this w)) as [rs|e|] eqn:Er; simpl; try exact Hc.
  destruct (rows_ok_settles w rs Er) as [g Hg].
  pose proof (columns_calls (snd (rows this w))) as Hcc.
  rewrite Hg in Hcc. simpl in Hcc.
  assert (Hcols : calls (snd (columns this (snd (rows this w)))) = calls w ++ [full_get this]).
  { rewrite Hcc, Hc. destruct (keptColumns (snd (rows this w))); rewrite app_nil_r; reflexivity. }
  destruct (fst (columns this (snd (rows this w)))); simpl; exact Hcols.
Qed.

Lemma data_frame (w : World R) :
  sheetTimer (snd (data this w)) = sheetTimer w.
Proof.
  rewrite data_unfold.
  pose proof (rows_frame w) as (_ & Ht).
  pose proof (columns_frame (snd (rows this w))) as (_ & Ht').
  destruct (fst (rows this w)); simpl; try exact Ht.
  destruct (fst (columns this (snd (rows this w)))); simpl; congruence.
Qed.

(** *** [normalizeInputData] and [append] *)

Lemma normalize_array (row : list Value) (w : World R) :
  normalizeInputData this (InputRowArray row) w = (Ok row, w).
Proof. reflexivity. Qed.

Lemma normalize_object (obj : list (string * Value)) (w : World R) :
  normalizeInputData this (InputRowObject obj) w =
  (match fst (columns this w) with
   | Ok cs => Ok (row_of_entries this obj cs)
   | Err e => Err e
   | Blocked => Blocked
   end, snd (columns this w)).
Proof.
  unfold normalizeInputData, bind, ret.
  destruct (columns this w) as [[cs|e|] w']; reflexivity.
Qed.

Lemma normalize_frame (arg : AppendInput) (w : World R) :
  keptSheet (snd (normalizeInputData this arg w)) = keptSheet w
  /\ sheetTimer (snd (normalizeInputData this arg w)) = sheetTimer w.
Proof.
  destruct arg as [row|obj].
  - rewrite normalize_array. auto.
  - rewrite normalize_object. simpl. apply columns_frame.
Qed.

Lemma normalize_calls (arg : AppendInput) (w : World R) :
  calls (snd (normalizeInputData this arg w)) =
  calls w ++
  match arg, keptColumns w, Keeper.stale (keptSheet w) with
  | InputRowObject _, Keeper.Empty, None => [header_get this]
  | _, _, _ => []
  end.
Proof.
  destruct arg as [row|obj].
  - rewrite normalize_array. simpl. rewrite app_nil_r. reflexivity.
  - rewrite normalize_object. simpl. apply columns_calls.
Qed.

Lemma normalize_keeps_settled (arg : AppendInput) (w : World R) (cs : list string) :
  keptColumns w = Keeper.Settled cs ->
  keptColumns (snd (normalizeInputData this arg w)) = Keeper.Settled cs.
Proof.
  intros E. destruct arg as [row|obj].
  - rewrite normalize_array. exact E.
  - rewrite normalize_object. simpl. apply columns_keeps_settled, E.
Qed.

(** [append], case by case: the row cannot be built; the remote call
    throws; the remote call returns. *)
Lemma append_unfold (arg : AppendInput) (w : World R) :
  append this arg w =
  let w1 := snd (normalizeInputData this arg w) in
  match fst (normalizeInputData this arg w) with
  | Ok row =>
      let sent := calls w1 ++ [ValuesAppend (spreadsheetId this) (range this) row] in
      match values_append (remote w1) (spreadsheetId this) (range this) row with
      | (AppendThrows reason, r') =>
          (Err (RemoteError reason), set_remote r' sent w1)
      | (AppendReturns updatedRows, r') =>
          (if no_row_updated updatedRows then Err FailedToSave else Ok updatedRows,
           set_keptSheet Keeper.Empty (set_remote r' sent w1))
      end
  | Err e => (Err e, w1)
  | Blocked => (Blocked, w1)
  end.
Proof.
  unfold append, bind.
  destruct (normalizeInputData this arg w) as [[row|e|] w1]; simpl; try reflexivity.
  unfold remote_append, keeper_fresh, throw, ret. simpl.
  destruct (values_append (remote w1) (spreadsheetId this) (range this) row)
    as [[reason|updatedRows] r']; simpl; [reflexivity|].
  destruct (no_row_updated updatedRows); reflexivity.
Qed.

Lemma append_frame (arg : AppendInput) (w : World R) :
  sheetTimer (snd (append this arg w)) = sheetTimer w
  /\ (forall cs, keptColumns w = Keeper.Settled cs ->
        keptColumns (snd (append this arg w)) = Keeper.Settled cs).
Proof.
  rewrite append_unfold.
  pose proof (normalize_frame arg w) as (_ & Ht).
  pose proof (normalize_keeps_settled arg w) as Hk.
  destruct (fst (normalizeInputData this arg w)) as [row|e|]; simpl; auto.
  destruct (values_append _ _ _ row) as [[reason|n] r']; simpl; auto.
Qed.

Lemma append_calls (arg : AppendInput) (w : World R) :
  exists d, calls (snd (append this arg w)) =
            calls (snd (normalizeInputData this arg w)) ++ d
            /\ header_fetches this d = 0%nat.
Proof.
  rewrite append_unfold.
  destruct (fst (normalizeInputData this arg w)) as [row|e|]; simpl;
    try (exists []; rewrite app_nil_r; split; reflexivity).
  destruct (values_append _ _ _ row) as [[reason|n] r']; simpl; eexists; split; reflexivity.
Qed.

(** *** [refresh], [keepFresh] and the timer *)

Lemma tick_frame (w : World R) :
  keptColumns (snd (tick this w)) = keptColumns w
  /\ sheetTimer (snd (tick this w)) = sheetTimer w.
Proof.
  unfold tick, keeper_tick.
  destruct (sheetTimer w) eqn:Et; [|auto].
  pose proof (getSheet_frame (range this) w) as (_ & Hc & Ht).
  destruct (getSheet this (range this) w) as [[g|e|] w']; simpl in *; split; congruence.
Qed.

Lemma tick_calls (w : World R) :
  calls (snd (tick this w)) =
  calls w ++ match sheetTimer w with Some _ => [full_get this] | None => [] end.
Proof.
  unfold tick, keeper_tick.
  destruct (sheetTimer w) eqn:Et; [|simpl; rewrite app_nil_r; reflexivity].
  pose proof (getSheet_calls (range this) w) as Hc.
  destruct (getSheet this (range this) w) as [[g|e|] w']; simpl in *; exact Hc.
Qed.

Lemma tick_keptSheet (w : World R) :
  keptSheet w <> Keeper.Pending -> keptSheet (snd (tick this w)) <> Keeper.Pending.
Proof.
  unfold tick, keeper_tick. intros Hp.
  destruct (sheetTimer w) eqn:Et; [|exact Hp].
  pose proof (getSheet_frame (range this) w) as (Hs & _).
  destruct (getSheet this (range this) w) as [[g|e|] w']; simpl in *;
    [discriminate | congruence | congruence].
Qed.

(** *** The log only grows, and a settled columns Keeper stays settled *)

Lemma header_fetches_app (a b : list Call) :
  header_fetches this (a ++ b) = (header_fetches this a + header_fetches this b)%nat.
Proof. unfold header_fetches. rewrite List.filter_app, length_app. reflexivity. Qed.

Lemma exec_keeps_columns (op : Op) (w : World R) (cs : list string) :
  keptColumns w = Keeper.Settled cs ->
  keptColumns (exec this op w) = Keeper.Settled cs
  /\ exists d, calls (exec this op w) = calls w ++ d /\ header_fetches this d = 0%nat.
Proof.
  intros E. destruct op; simpl.
  - (* rows *)
    split; [rewrite (proj1 (rows_frame w)); exact E|].
    rewrite rows_calls. eexists; split; [reflexivity|].
    destruct (keptSheet w); try reflexivity. apply header_fetches_full_get.
  - (* columns *)
    rewrite (columns_settled w cs E). simpl. split; [exact E|].
    exists []. rewrite app_nil_r. split; reflexivity.
  - (* data *)
    rewrite data_unfold.
    pose proof (rows_frame w) as (Hc & _). rewrite E in Hc.
    pose proof (rows_calls w) as Hl.
    assert (Hd : header_fetches this
                   match keptSheet w with Keeper.Empty => [full_get this] | _ => [] end = 0%nat).
    { destruct (keptSheet w); try reflexivity. apply header_fetches_full_get. }
    destruct (fst (rows this w)) as [rs|e|]; simpl.
    + rewrite (columns_settled _ cs Hc). simpl. split; [exact Hc|].
      eexists; split; [exact Hl | exact Hd].
    + split; [exact Hc|]. eexists; split; [exact Hl | exact Hd].
    + split; [exact Hc|]. eexists; split; [exact Hl | exact Hd].
  - (* append *)
    split; [apply append_frame; exact E|].
    destruct (append_calls arg w) as (d & Hd & Hh).
    exists d. split; [|exact Hh].
    rewrite Hd, normalize_calls, E.
    destruct arg; rewrite app_nil_r; reflexivity.
  - (* refresh *)
    split; [exact E|]. exists []. rewrite app_nil_r. split; reflexivity.
  - (* keepFresh *)
    split; [exact E|]. exists []. rewrite app_nil_r. split; reflexivity.
  - (* the timer *)
    split; [rewrite (proj1 (tick_frame w)); exact E|].
    rewrite tick_calls. eexists; split; [reflexivity|].
    destruct (sheetTimer w); try reflexivity. apply header_fetches_full_get.
Qed.

Lemma exec_all_keeps_columns (ops : list Op) (w : World R) (cs : list string) :
  keptColumns w = Keeper.Settled cs ->
  keptColumns (exec_all this ops w) = Keeper.Settled cs
  /\ exists d, calls (exec_all this ops w) = calls w ++ d /\ header_fetches this d = 0%nat.
Proof.
  revert w. induction ops as [|op ops IH]; intros w E; simpl.
  - split; [exact E|]. exists []. rewrite app_nil_r. split; reflexivity.
  - destruct (exec_keeps_columns op w cs E) as (E1 & d1 & Hd1 & Hh1).
    destruct (IH _ E1) as (E2 & d2 & Hd2 & Hh2).
    split; [exact E2|]. exists (d1 ++ d2). split.
    + change (calls (exec_all this ops (exec this op w)) = calls w ++ d1 ++ d2).
      rewrite Hd2, Hd1, app_assoc. reflexivity.
    + rewrite header_fetches_app, Hh1, Hh2. reflexivity.
Qed.
(** *** Between two calls no Keeper is pending *)

Lemma rows_calm (w : World R) :
  keptSheet w <> Keeper.Pending ->
  keptSheet (snd (rows this w)) <> Keeper.Pending /\ fst (rows this w) <> Blocked.
Proof.
  intros Hp. destruct (keptSheet w) as [| |g] eqn:E; [|contradiction|].
  - rewrite (rows_empty w E).
    pose proof (getSheet_not_blocked (range this) (set_keptSheet Keeper.Pending w)) as Hb.
    destruct (fst (getSheet this (range this) (set_keptSheet Keeper.Pending w)));
      simpl; [split; discriminate | split; discriminate | contradiction].
  - rewrite (rows_settled w g E). simpl. rewrite E. split; discriminate.
Qed.

Lemma append_keptSheet (arg : AppendInput) (w : World R) :
  keptSheet (snd (append this arg w)) = keptSheet w
  \/ keptSheet (snd (append this arg w)) = Keeper.Empty.
Proof.
  rewrite append_unfold.
  pose proof (normalize_frame arg w) as (Hs & _).
  destruct (fst (normalizeInputData this arg w)) as [row|e|]; simpl; auto.
  destruct (values_append _ _ _ row) as [[reason|n] r']; simpl; auto.
Qed.

Lemma append_keptColumns (arg : AppendInput) (w : World R) :
  keptColumns (snd (append this arg w)) =
  keptColumns (snd (normalizeInputData this arg w)).
Proof.
  rewrite append_unfold.
  destruct (fst (normalizeInputData this arg w)) as [row|e|]; simpl; auto.
  destruct (values_append _ _ _ row) as [[reason|n] r']; simpl; auto.
Qed.

(** *** An instance without header rows *)

Section ZeroHeaderRows.
Hypothesis Hzero : headerRows this = 0%Z.

Lemma columns_of_rows_zero (g : Grid) :
  columns_of_rows this g = Err (HeaderRowEmpty 0).
Proof. unfold columns_of_rows, JsArray.index. rewrite Hzero. reflexivity. Qed.

Lemma getColumns_zero (w : World R) :
  exists e, fst (getColumns this w) = Err e.
Proof.
  destruct (Keeper.stale (keptSheet w)) as [g|] eqn:E.
  - destruct (keptSheet w) eqn:Ek; try discriminate. inversion E; subst.
    rewrite (getColumns_settled w g Ek). simpl. rewrite columns_of_rows_zero. eauto.
  - rewrite (getColumns_unsettled w E). simpl.
    pose proof (getSheet_not_blocked (headerRange this) w) as Hb.
    destruct (fst (getSheet this (headerRange this) w)) as [g|e|];
      [rewrite columns_of_rows_zero; eauto | eauto | contradiction].
Qed.

Lemma columns_zero (w : World R) :
  keptColumns w = Keeper.Empty ->
  is_Err (fst (columns this w)) /\ keptColumns (snd (columns this w)) = Keeper.Empty.
Proof.
  intros E. rewrite (columns_empty w E).
  destruct (getColumns_zero (set_keptColumns Keeper.Pending w)) as [e He].
  simpl. rewrite He. simpl. auto.
Qed.

Lemma data_zero (w : World R) :
  keptColumns w = Keeper.Empty -> keptSheet w <> Keeper.Pending ->
  is_Err (fst (data this w))
  /\ keptColumns (snd (data this w)) = Keeper.Empty
  /\ keptSheet (snd (data this w)) <> Keeper.Pending.
Proof.
  intros Ec Hp. rewrite data_unfold.
  pose proof (rows_frame w) as (Hc & _). rewrite Ec in Hc.
  pose proof (rows_calm w Hp) as (Hs & Hb).
  pose proof (columns_zero _ Hc) as (He & Hc').
  pose proof (columns_frame (snd (rows this w))) as (Hs' & _).
  destruct (fst (rows this w)) as [rs|e|]; simpl; [|auto|contradiction].
  destruct (fst (columns this (snd (rows this w)))) as [ks|e|]; simpl in *;
    try contradiction.
  rewrite Hs'. auto.
Qed.

Lemma exec_zero (op : Op) (w : World R) :
  keptColumns w = Keeper.Empty /\ keptSheet w <> Keeper.Pending ->
  keptColumns (exec this op w) = Keeper.Empty
  /\ keptSheet (exec this op w) <> Keeper.Pending.
Proof.
  intros (Ec & Hp). destruct op; simpl.
  - rewrite (proj1 (rows_frame w)). split; [exact Ec | apply rows_calm; exact Hp].
  - rewrite (proj1 (columns_frame w)). split; [apply columns_zero; exact Ec | exact Hp].
  - pose proof (data_zero w Ec Hp) as (_ & H1 & H2). auto.
  - rewrite append_keptColumns. split.
    + destruct arg as [row|obj].
      * rewrite normalize_array. exact Ec.
      * rewrite normalize_object. simpl. apply columns_zero; exact Ec.
    + destruct (append_keptSheet arg w) as [E|E]; rewrite E; [exact Hp | discriminate].
  - split; [exact Ec | discriminate].
  - split; [exact Ec | exact Hp].
  - rewrite (proj1 (tick_frame w)). split; [exact Ec | apply tick_keptSheet; exact Hp].
Qed.

Lemma exec_all_zero (ops : list Op) (w : World R) :
  keptColumns w = Keeper.Empty /\ keptSheet w <> Keeper.Pending ->
  keptColumns (exec_all this ops w) = Keeper.Empty
  /\ keptSheet (exec_all this ops w) <> Keeper.Pending.
Proof.
  revert w. induction ops as [|op ops IH]; intros w Hw; [exact Hw|].
  simpl. apply IH, exec_zero, Hw.
Qed.

Lemma rows_of_grid_zero (g : Grid) :
  rows_of_grid this g =
  List.filter (fun row => filter this (inl row))
    (map (fun row => map (sanitize_string (sanitize this)) row) g).
Proof.
  unfold rows_of_grid, JsArray.slice_from. rewrite Hzero. simpl.
  replace (Z.to_nat (Z.min 0 (Z.of_nat (length g)))) with 0%nat by lia.
  reflexivity.
Qed.

End ZeroHeaderRows.

Lemma constructor_calm (options : GSheetOptions) (r : R) :
  keptColumns (constructor options r) = Keeper.Empty
  /\ keptSheet (constructor options r) = Keeper.Empty.
Proof.
  unfold constructor.
  destruct (truthy_flag (opt_preload options)), (truthy_number (opt_interval options));
    simpl; auto.
Qed.

(** *** Looking a column up among the entries of an object *)

Lemma lookup_entry_first (pre post : list (string * Value)) (k : string) (v : Value)
    (column : string) :
  k = JsString.toLowerCase column ->
  (forall k' v', In (k', v') pre -> k' <> JsString.toLowerCase column) ->
  lookup_entry (pre ++ (k, v) :: post) column = v.
Proof.
  intros Ek Hpre. unfold lookup_entry.
  induction pre as [|[k' v'] pre IH]; simpl.
  - rewrite Ek, String.eqb_refl. reflexivity.
  - destruct (String.eqb k' (JsString.toLowerCase column)) eqn:E.
    + apply String.eqb_eq in E. exfalso. apply (Hpre k' v'); [left; reflexivity | exact E].
    + apply IH. intros k'' v'' Hin. apply (Hpre k'' v''). right. exact Hin.
Qed.

Lemma lookup_entry_none (entries : list (string * Value)) (column : string) :
  (forall k v, In (k, v) entries -> k <> JsString.toLowerCase column) ->
  lookup_entry entries column = VUndefined.
Proof.
  intros Hno. unfold lookup_entry.
  induction entries as [|[k v] entries IH]; simpl; [reflexivity|].
  destruct (String.eqb k (JsString.toLowerCase column)) eqn:E.
  - apply String.eqb_eq in E. exfalso. apply (Hno k v); [left; reflexivity | exact E].
  - apply IH. intros k' v' Hin. apply (Hno k' v'). right. exact Hin.
Qed.

Lemma row_of_entries_lookup (obj : list (string * Value)) (cs : list string)
    (i : nat) (column : string) :
  cs !! i = Some column ->
  row_of_entries this obj cs !! i =
  Some (sanitize this
          (lookup_entry
             (map (fun entry => (JsString.toLowerCase (fst entry), snd entry)) obj)
             column)).
Proof.
  intros E. unfold row_of_entries.
  rewrite !list_lookup_fmap, E. reflexivity.
Qed.

Lemma append_object_calls (obj : list (string * Value)) (w : World R) (cs : list string) :
  fst (columns this w) = Ok cs ->
  calls (snd (append this (InputRowObject obj) w)) =
  calls (snd (columns this w))
  ++ [ValuesAppend (spreadsheetId this) (range this) (row_of_entries this obj cs)].
Proof.
  intros E. rewrite append_unfold, normalize_object. simpl. rewrite E.
  destruct (values_append _ _ _ _) as [[reason|n] r']; reflexivity.
Qed.

Lemma append_array_calls (row : list Value) (w : World R) :
  calls (snd (append this (InputRowArray row) w)) =
  calls w ++ [ValuesAppend (spreadsheetId this) (range this) row].
Proof.
  rewrite append_unfold, normalize_array. simpl.
  destruct (values_append _ _ _ _) as [[reason|n] r']; reflexivity.
Qed.

End GsheetProofs.
(** ** Row objects *)

Section RowObjects.
Variable keys : list string.

Lemma assign_cell_lookup (obj : RowObject) (x : string) (n : nat) (k : string) :
  assign_cell keys obj x n !! k =
  if decide (keys !! n = Some k /\ JsString.truthy k = true /\ k <> "__proto__")
  then Some x else obj !! k.
Proof.
  unfold assign_cell.
  destruct (keys !! n) as [key|] eqn:Ek.
  - destruct (JsString.truthy key) eqn:Et.
    + destruct (String.eqb key "__proto__") eqn:Ep.
      * apply String.eqb_eq in Ep. subst key.
        destruct (decide _) as [(E & _ & Hne)|_]; [|reflexivity].
        inversion E; subst. contradiction.
      * apply String.eqb_neq in Ep.
        destruct (decide _) as [(E & _ & _)|Hn].
        -- inversion E; subst. apply lookup_insert_eq.
        -- apply lookup_insert_ne. intros ->. apply Hn. auto.
    + destruct (decide _) as [(E & Ht & _)|_]; [|reflexivity].
      inversion E; subst. congruence.
  - destruct (decide _) as [(E & _)|_]; [discriminate | reflexivity].
Qed.

(** A key that is never assigned keeps the value it had. *)
Lemma reduce_row_untouched (row : RowArray) (n : nat) (obj : RowObject) (k : string) :
  (JsString.truthy k = true -> k <> "__proto__" ->
   forall j, (j < length row)%nat -> keys !! (n + j)%nat <> Some k) ->
  reduce_row keys n row obj !! k = obj !! k.
Proof.
  revert n obj. induction row as [|x rest IH]; intros n obj Hno; [reflexivity|].
  simpl. rewrite IH.
  - rewrite assign_cell_lookup.
    destruct (decide _) as [(E & Ht & Hp)|_]; [|reflexivity].
    exfalso. apply (Hno Ht Hp 0%nat); [simpl; lia|].
    rewrite Nat.add_0_r. exact E.
  - intros Ht Hp j Hj. replace (S n + j)%nat with (n + S j)%nat by lia.
    apply (Hno Ht Hp). simpl. lia.
Qed.

(** The last cell under a column named [k] decides the value of [k]. *)
Lemma reduce_row_last (row : RowArray) (n : nat) (obj : RowObject)
    (k v : string) (i : nat) :
  JsString.truthy k = true -> k <> "__proto__" ->
  keys !! (n + i)%nat = Some k -> row !! i = Some v ->
  (forall j, (i < j)%nat -> (j < length row)%nat -> keys !! (n + j)%nat <> Some k) ->
  reduce_row keys n row obj !! k = Some v.
Proof.
  intros Ht Hp. revert n obj i.
  induction row as [|x rest IH]; intros n obj i Ek Ev Hlast; [discriminate|].
  simpl. destruct i as [|i].
  - simpl in Ev. inversion Ev; subst x.
    rewrite reduce_row_untouched.
    + rewrite assign_cell_lookup. rewrite Nat.add_0_r in Ek.
      destruct (decide _) as [_|Hn]; [reflexivity|]. exfalso. apply Hn. auto.
    + intros _ _ j Hj. replace (S n + j)%nat with (n + S j)%nat by lia.
      apply Hlast; simpl; lia.
  - apply (IH (S n) _ i).
    + replace (S n + i)%nat with (n + S i)%nat by lia. exact Ek.
    + exact Ev.
    + intros j Hij Hj. replace (S n + j)%nat with (n + S j)%nat by lia.
      apply Hlast; simpl; lia.
Qed.

(** Where the value of a key comes from. *)
Lemma reduce_row_origin (row : RowArray) (n : nat) (obj : RowObject) (k v : string) :
  reduce_row keys n row obj !! k = Some v ->
  (obj !! k = Some v
   /\ (JsString.truthy k = true -> k <> "__proto__" ->
       forall j, (j < length row)%nat -> keys !! (n + j)%nat <> Some k))
  \/ (JsString.truthy k = true /\ k <> "__proto__"
      /\ exists i, keys !! (n + i)%nat = Some k /\ row !! i = Some v
         /\ forall j, (i < j)%nat -> (j < length row)%nat -> keys !! (n + j)%nat <> Some k).
Proof.
  revert n obj. induction row as [|x rest IH]; intros n obj Hv.
  - left. split; [exact Hv|]. intros _ _ j Hj. simpl in Hj. lia.
  - simpl in Hv. destruct (IH _ _ Hv) as [(Ho & Hno)|(Ht & Hp & i & Ek & Ev & Hlast)].
    + rewrite assign_cell_lookup in Ho.
      destruct (decide _) as [(E & Ht & Hp)|Hn].
      * right. split; [exact Ht|]. split; [exact Hp|].
        exists 0%nat. rewrite Nat.add_0_r. split; [exact E|].
        split; [simpl; congruence|].
        intros j Hij Hj. destruct j as [|j]; [lia|].
        replace (n + S j)%nat with (S n + j)%nat by lia.
        apply (Hno Ht Hp). simpl in Hj. lia.
      * left. split; [exact Ho|]. intros Ht Hp j Hj.
        destruct j as [|j].
        -- rewrite Nat.add_0_r. intros E. apply Hn. auto.
        -- replace (n + S j)%nat with (S n + j)%nat by lia.
           apply (Hno Ht Hp). simpl in Hj. lia.
    + right. split; [exact Ht|]. split; [exact Hp|].
      exists (S i). replace (n + S i)%nat with (S n + i)%nat by lia.
      split; [exact Ek|]. split; [exact Ev|].
      intros j Hij Hj. destruct j as [|j]; [lia|].
      replace (n + S j)%nat with (S n + j)%nat by lia.
      apply Hlast; simpl in Hj; lia.
Qed.

Lemma row_object_lookup (row : RowArray) (k v : string) :
  row_object keys row !! k = Some v <->
  JsString.truthy k = true /\ k <> "__proto__"
  /\ exists i, keys !! i = Some k /\ row !! i = Some v
     /\ forall j, (i < j)%nat -> (j < length row)%nat -> keys !! j <> Some k.
Proof.
  unfold row_object. split.
  - intros Hv. destruct (reduce_row_origin _ _ _ _ _ Hv) as [(Ho & _)|Hr].
    + rewrite lookup_empty in Ho. discriminate.
    + exact Hr.
  - intros (Ht & Hp & i & Ek & Ev & Hlast).
    apply (reduce_row_last row 0 ∅ k v i); assumption.
Qed.

End RowObjects.
(** ** Interleaved callers of one Keeper *)

Section KeeperProofs.
Import Keeper.
Context {T : Type}.
Variable revive : bool.

Lemma run_app (es1 es2 : list (event T)) (k : cell T) :
  run revive (es1 ++ es2) k =
  match run revive es1 k with
  | Some k' => run revive es2 k'
  | None => None
  end.
Proof.
  revert k. induction es1 as [|e es1 IH]; intros k; simpl; [reflexivity|].
  destruct (step revive e k); [apply IH | reflexivity].
Qed.

Lemma tracked_count_app (fs gs : list flight) :
  tracked_count (fs ++ gs) = (tracked_count fs + tracked_count gs)%nat.
Proof. unfold tracked_count. rewrite List.filter_app, length_app. reflexivity. Qed.

Lemma tracked_count_attach (c : nat) (fs : list flight) :
  tracked_count (map (attach c) fs) = tracked_count fs.
Proof.
  unfold tracked_count. induction fs as [|f fs IH]; [reflexivity|].
  simpl. unfold attach at 1.
  destruct (is_tracked (part f)) eqn:E; simpl; rewrite E; simpl; rewrite IH; reflexivity.
Qed.

Lemma tracked_count_disown (fs : list flight) :
  tracked_count (map disown fs) = 0%nat.
Proof.
  unfold tracked_count. induction fs as [|f fs IH]; [reflexivity|].
  simpl. unfold disown at 1. destruct (part f) eqn:E; simpl; try rewrite E; simpl; exact IH.
Qed.

Lemma tracked_count_delete (fs : list flight) (n : nat) (f : flight) :
  fs !! n = Some f ->
  (tracked_count (delete n fs) + (if is_tracked (part f) then 1 else 0)
   = tracked_count fs)%nat.
Proof.
  revert n. induction fs as [|g fs IH]; intros n E; [discriminate|].
  destruct n as [|n]; simpl in E.
  - inversion E; subst. unfold tracked_count. simpl.
    destruct (is_tracked (part f)); simpl; lia.
  - specialize (IH n E). unfold tracked_count in *. simpl.
    destruct (is_tracked (part g)); simpl; lia.
Qed.

(** Futures that are not tracked take no new waiter. *)
Lemma attach_untracked (c : nat) (fs : list flight) :
  tracked_count fs = 0%nat -> map (attach c) fs = fs.
Proof.
  unfold tracked_count. induction fs as [|f fs IH]; [reflexivity|].
  simpl. intros E. unfold attach at 1.
  destruct (is_tracked (part f)); simpl in E; [discriminate|].
  rewrite IH by exact E. reflexivity.
Qed.

(** Callers that find the Keeper pending attach to the one tracked future:
    the producer is not invoked again. *)
Lemma run_gets_pending (cs : list nat) (k : cell T) (fs : list flight) (ws : list nat) :
  st k = Pending -> tracked_count fs = 0%nat ->
  flying k = fs ++ [{| part := Tracked; waiters := ws |}] ->
  run revive (map Get cs) k =
  Some {| st := Pending; timer := timer k; invoked := invoked k;
          flying := fs ++ [{| part := Tracked; waiters := ws ++ cs |}];
          delivered := delivered k |}.
Proof.
  revert k ws. induction cs as [|c cs IH]; intros k ws Es Hfs Ef; simpl.
  - rewrite app_nil_r. destruct k; simpl in *; subst; reflexivity.
  - rewrite Es. simpl.
    rewrite (IH _ (ws ++ [c])); simpl.
    + rewrite <- app_assoc. reflexivity.
    + reflexivity.
    + exact Hfs.
    + rewrite Ef, map_app, (attach_untracked c fs Hfs). reflexivity.
Qed.

(** One round: callers arrive on an empty Keeper, then their future settles. *)
Lemma run_round (c : nat) (cs : list nat) (o : outcome T) (k : cell T) :
  st k = Empty -> tracked_count (flying k) = 0%nat ->
  run revive (map Get (c :: cs) ++ [Settle (length (flying k)) o]) k =
  Some {| st := settle o; timer := timer k; invoked := S (invoked k);
          flying := flying k;
          delivered := delivered k ++ map (fun c' => (c', o)) (c :: cs) |}.
Proof.
  intros Es Hfs. rewrite run_app. cbn [map run step]. rewrite Es. cbn [get].
  rewrite (run_gets_pending cs _ (flying k) [c]); [|reflexivity|exact Hfs|reflexivity].
  cbn [run step flying st timer invoked delivered].
  rewrite lookup_app_r by lia. rewrite Nat.sub_diag. cbn [lookup list_lookup].
  simpl. f_equal. f_equal.
  rewrite delete_middle. apply app_nil_r.
Qed.

Lemma step_coherent (e : event T) (k k' : cell T) :
  coherent k -> step revive e k = Some k' -> coherent k'.
Proof.
  unfold coherent. intros Hk Hs. destruct e as [c| |i| |n o]; simpl in Hs.
  - destruct (st k) eqn:E; simpl in Hs; inversion Hs; subst; simpl.
    + rewrite tracked_count_app, Hk. reflexivity.
    + rewrite tracked_count_attach. exact Hk.
    + exact Hk.
  - inversion Hs; subst; simpl. apply tracked_count_disown.
  - inversion Hs; subst; simpl. exact Hk.
  - destruct (timer k); [|discriminate]. inversion Hs; subst; simpl.
    assert (Hc : tracked_count (flying k ++ [{| part := Background; waiters := [] |}])
                 = tracked_count (flying k)).
    { rewrite tracked_count_app. unfold tracked_count. simpl. lia. }
    rewrite Hc. exact Hk.
  - destruct (flying k !! n) as [f|] eqn:Ef; [|discriminate].
    inversion Hs; subst; simpl.
    pose proof (tracked_count_delete _ _ _ Ef) as Hd.
    unfold landing.
    destruct (part f); simpl in Hd.
    + destruct o; simpl; destruct (st k); lia.
    + destruct revive; [destruct o; simpl|]; destruct (st k); lia.
    + destruct o; simpl; destruct (st k); lia.
Qed.

Lemma run_coherent (es : list (event T)) (k k' : cell T) :
  coherent k -> run revive es k = Some k' -> coherent k'.
Proof.
  revert k. induction es as [|e es IH]; intros k Hk Hr; simpl in Hr.
  - inversion Hr; subst. exact Hk.
  - destruct (step revive e k) as [k1|] eqn:Es; [|discriminate].
    apply (IH k1); [|exact Hr]. apply (step_coherent e k); assumption.
Qed.

Lemma coherent_tracked (k : cell T) :
  coherent k -> (tracked_count (flying k) <= 1)%nat.
Proof. unfold coherent. destruct (st k); lia. Qed.

(** Every invocation of the producer is either settled or in flight. *)
Lemma run_invoked (es : list (event T)) (k k' : cell T) :
  run revive es k = Some k' ->
  (invoked k' + length (flying k)
   = invoked k + settles es + length (flying k'))%nat.
Proof.
  revert k. induction es as [|e es IH]; intros k Hr; simpl in Hr.
  - inversion Hr; subst. unfold settles. simpl. lia.
  - destruct (step revive e k) as [k1|] eqn:Es; [|discriminate].
    specialize (IH k1 Hr). unfold settles in *.
    destruct e as [c| |i| |n o]; simpl in Es.
    + destruct (st k); simpl in Es; inversion Es; subst; simpl in *;
        rewrite ?length_app, ?length_map in *; simpl in *; lia.
    + inversion Es; subst; simpl in *. rewrite length_map in IH. lia.
    + inversion Es; subst; simpl in *. lia.
    + destruct (timer k); [|discriminate]. inversion Es; subst; simpl in *.
      rewrite length_app in IH. simpl in IH. lia.
    + destruct (flying k !! n) as [f|] eqn:Ef; [|discriminate].
      inversion Es; subst; simpl in *.
      pose proof (lookup_lt_Some _ _ _ Ef) as Hlt.
      rewrite length_delete in IH by eauto. simpl in *. lia.
Qed.

(** With callers of [get()] alone, the only future in flight is the
    tracked one. *)
Lemma step_single_flight (e : event T) (k k' : cell T) :
  get_or_settle e = true ->
  length (flying k) = (if st_pending (st k) then 1%nat else 0%nat)
  /\ Forall (fun f => part f = Tracked) (flying k) ->
  step revive e k = Some k' ->
  length (flying k') = (if st_pending (st k') then 1%nat else 0%nat)
  /\ Forall (fun f => part f = Tracked) (flying k').
Proof.
  intros He (Hl & Hall) Hs. destruct e as [c| |i| |n o]; try discriminate; simpl in Hs.
  - destruct (st k) eqn:E; simpl in Hs, Hl; inversion Hs; subst; simpl.
    + rewrite length_app, Hl. split; [reflexivity|].
      apply Forall_app. split; [exact Hall | repeat constructor].
    + rewrite length_map. split; [exact Hl|].
      apply Forall_fmap. eapply Forall_impl; [exact Hall|].
      intros f Hf. simpl. unfold attach. rewrite Hf. reflexivity.
    + auto.
  - destruct (flying k !! n) as [f|] eqn:Ef; [|discriminate].
    inversion Hs; subst; simpl.
    pose proof (lookup_lt_Some _ _ _ Ef) as Hlt.
    assert (Hf : part f = Tracked).
    { rewrite Forall_lookup in Hall. exact (Hall n f Ef). }
    rewrite Hf. simpl.
    destruct (st_pending (st k)); [|lia].
    destruct (flying k) as [|g [|g' fs]]; simpl in *; try lia.
    destruct n; [|lia]. simpl. split; [destruct o; reflexivity | constructor].
Qed.

Lemma run_single_flight (es : list (event T)) (k k' : cell T) :
  forallb get_or_settle es = true ->
  length (flying k) = (if st_pending (st k) then 1%nat else 0%nat)
  /\ Forall (fun f => part f = Tracked) (flying k) ->
  run revive es k = Some k' ->
  length (flying k') = (if st_pending (st k') then 1%nat else 0%nat).
Proof.
  revert k. induction es as [|e es IH]; intros k He Hk Hr; simpl in Hr.
  - inversion Hr; subst. apply Hk.
  - simpl in He. apply andb_true_iff in He. destruct He as (He & Hes).
    destruct (step revive e k) as [k1|] eqn:Es; [|discriminate].
    apply (IH k1 Hes); [|exact Hr]. apply (step_single_flight e k); assumption.
Qed.

End KeeperProofs.

Lemma columns_of_rows_not_blocked (this : Gsheet) (g : Grid) :
  columns_of_rows this g <> Blocked.
Proof.
  unfold columns_of_rows.
  destruct (JsArray.index g (headerRows this - 1)) as [[|c cs]|]; discriminate.
Qed.

(** [rows()] on an empty grid Keeper, by what the remote answers to the
    fetch of the full range. *)
Lemma rows_from_empty {R : Type} `{RemoteSource R} (this : Gsheet) (w : World R) :
  keptSheet w = Keeper.Empty ->
  let fetched :=
    set_remote (snd (values_get (remote w) (spreadsheetId this) (range this)))
      (calls w ++ [full_get this]) w in
  rows this w =
  match fst (values_get (remote w) (spreadsheetId this) (range this)) with
  | GetReturns (Some g) =>
      (Ok (rows_of_grid this g), set_keptSheet (Keeper.Settled g) fetched)
  | GetReturns None => (Err NoDataFound, set_keptSheet Keeper.Empty fetched)
  | GetThrows reason => (Err (RemoteError reason), set_keptSheet Keeper.Empty fetched)
  end.
Proof.
  intros E. cbv zeta. unfold rows, bind, ret, keeper_get, getSheet. simpl. rewrite E. simpl.
  destruct (values_get (remote w) (spreadsheetId this) (range this))
    as [[reason|[g|]] r']; reflexivity.
Qed.

(** C4.  [data()] requests [rows()] before [columns()]: it is [rows()]
    followed, when the rows have resolved, by [columns()] run on the world
    that [rows()] left.  On an empty grid Keeper one call of [data()]
    therefore adds exactly one remote call to the log, the fetch of the
    full range: one full-grid fetch and no narrow header-row fetch.  When
    that fetch returns a grid, the grid Keeper is settled on it, the
    producer of the columns Keeper, run after [rows()], takes the header
    row from that very grid without touching the world, and [data()]
    returns the rows of the grid keyed by it (by the list already settled,
    when the columns Keeper holds one); when the fetch fails, [data()]
    fails with the error of the fetch and the columns Keeper is as it
    was. *)
Theorem data_fetches_grid_once {R : Type} `{RemoteSource R} (this : Gsheet) (w : World R) :
  keptSheet w = Keeper.Empty ->
  calls_since w (snd (data this w)) = [full_get this]
  /\ full_fetches this (calls_since w (snd (data this w))) = 1%nat
  /\ header_fetches this (calls_since w (snd (data this w))) = 0%nat
  /\ data this w
     = match fst (rows this w) with
       | Ok rs =>
           match fst (columns this (snd (rows this w))) with
           | Ok ks => (Ok (objects_of this ks rs), snd (columns this (snd (rows this w))))
           | Err e => (Err e, snd (columns this (snd (rows this w))))
           | Blocked => (Blocked, snd (columns this (snd (rows this w))))
           end
       | Err e => (Err e, snd (rows this w))
       | Blocked => (Blocked, snd (rows this w))
       end
  /\ match fst (values_get (remote w) (spreadsheetId this) (range this)) with
     | GetReturns (Some g) =>
         fst (rows this w) = Ok (rows_of_grid this g)
         /\ keptSheet (snd (rows this w)) = Keeper.Settled g
         /\ keptSheet (snd (data this w)) = Keeper.Settled g
         /\ getColumns this (set_keptColumns Keeper.Pending (snd (rows this w)))
            = (columns_of_rows this g, set_keptColumns Keeper.Pending (snd (rows this w)))
         /\ match keptColumns w with
            | Keeper.Empty =>
                fst (data this w)
                = match columns_of_rows this g with
                  | Ok ks => Ok (objects_of this ks (rows_of_grid this g))
                  | Err e => Err e
                  | Blocked => Blocked
                  end
                /\ keptColumns (snd (data this w))
                   = match columns_of_rows this g with
                     | Ok ks => Keeper.Settled ks
                     | _ => Keeper.Empty
                     end
            | Keeper.Settled cs =>
                fst (data this w) = Ok (objects_of this cs (rows_of_grid this g))
                /\ keptColumns (snd (data this w)) = Keeper.Settled cs
            | Keeper.Pending => fst (data this w) = Blocked
            end
     | GetReturns None =>
         fst (data this w) = Err NoDataFound
         /\ keptColumns (snd (data this w)) = keptColumns w
         /\ keptSheet (snd (data this w)) = Keeper.Empty
     | GetThrows reason =>
         fst (data this w) = Err (RemoteError reason)
         /\ keptColumns (snd (data this w)) = keptColumns w
         /\ keptSheet (snd (data this w)) = Keeper.Empty
     end.
Proof.
  intros E.
  rewrite (calls_since_app w _ [full_get this] (data_calls_from_empty this w E)).
  split; [reflexivity|]. split; [apply full_fetches_full_get|].
  split; [apply header_fetches_full_get|]. split; [apply data_unfold|].
  rewrite data_unfold. pose proof (rows_from_empty this w E) as Hr. cbv zeta in Hr.
  destruct (fst (values_get (remote w) (spreadsheetId this) (range this)))
    as [reason|[g|]]; rewrite Hr; simpl; [auto| |auto].
  set (w1 := set_keptSheet (Keeper.Settled g) _).
  assert (Hs : keptSheet w1 = Keeper.Settled g) by reflexivity.
  assert (Hc : keptColumns w1 = keptColumns w) by reflexivity.
  pose proof (columns_frame this w1) as (Hf & _). rewrite Hs in Hf.
  pose proof (getColumns_settled this (set_keptColumns Keeper.Pending w1) g Hs) as Hg.
  split; [reflexivity|]. split; [reflexivity|].
  split; [destruct (fst (columns this w1)); simpl; exact Hf|].
  split; [exact Hg|].
  destruct (keptColumns w) as [| |cs] eqn:Ek.
  - rewrite (columns_empty this w1 Hc), Hg. simpl.
    pose proof (columns_of_rows_not_blocked this g) as Hnb.
    destruct (columns_of_rows this g); simpl; auto. contradiction.
  - rewrite (columns_pending this w1 Hc). reflexivity.
  - rewrite (columns_settled this w1 cs Hc). simpl.
    split; [reflexivity|]. first [exact Hc | exact Ek].
Qed.

Lemma data_fetches_grid_once_witness :
  let this := instance_of example_options in
  let w := constructor example_options example_sheet in
  keptSheet w = Keeper.Empty
  /\ calls_since w (snd (data this w)) = [full_get this]
  /\ full_fetches this (calls_since w (snd (data this w))) = 1%nat
  /\ header_fetches this (calls_since w (snd (data this w))) = 0%nat
  /\ keptColumns (snd (data this w)) = Keeper.Settled ["Name"; "Email"].
Proof.
  intros this w.
  assert (E : keptSheet w = Keeper.Empty) by reflexivity.
  split; [exact E|].
  destruct (data_fetches_grid_once this w E) as (H1 & H2 & H3 & _ & H5).
  split; [exact H1|]. split; [exact H2|]. split; [exact H3|].
  exact (proj2 (proj2 (proj2 (proj2 (proj2 H5))))).
Defined.


(** ** The claims about [append] *)

(** C1 (as amended).  [append()] resets the grid cache exactly when the
    remote append call returns a response.  If the response reports at
    least one updated row, [append()] returns it, the grid Keeper is empty
    and the next [rows()] or [data()] call makes exactly one remote call,
    the fetch of the full range.  If the response reports no updated row,
    [append()] raises [FailedToSave] and the grid Keeper is empty all the
    same.  If the remote call throws, or the row cannot be built because
    [columns()] fails, [append()] raises that error and the grid Keeper is
    in the state it was in before the call. *)
Theorem append_resets_grid_when_remote_returns
    {R : Type} `{RemoteSource R} (this : Gsheet) (arg : AppendInput) (w : World R) :
  let w1 := snd (normalizeInputData this arg w) in
  let w' := snd (append this arg w) in
  match fst (normalizeInputData this arg w) with
  | Ok row =>
      match fst (values_append (remote w1) (spreadsheetId this) (range this) row) with
      | AppendReturns updatedRows =>
          fst (append this arg w)
          = (if no_row_updated updatedRows then Err FailedToSave else Ok updatedRows)
          /\ keptSheet w' = Keeper.Empty
          /\ calls_since w' (snd (rows this w')) = [full_get this]
          /\ calls_since w' (snd (data this w')) = [full_get this]
      | AppendThrows reason =>
          fst (append this arg w) = Err (RemoteError reason)
          /\ keptSheet w' = keptSheet w
      end
  | Err e => fst (append this arg w) = Err e /\ keptSheet w' = keptSheet w
  | Blocked => fst (append this arg w) = Blocked /\ keptSheet w' = keptSheet w
  end.
Proof.
  cbv zeta. rewrite append_unfold. cbv zeta.
  pose proof (normalize_frame this arg w) as (Hs & _).
  destruct (fst (normalizeInputData this arg w)) as [row|e|]; simpl; auto.
  destruct (values_append _ _ _ row) as [[reason|n] r']; simpl; auto.
  split; [reflexivity|]. split; [reflexivity|].
  split; apply calls_since_app.
  - rewrite rows_calls. reflexivity.
  - apply data_calls_from_empty. reflexivity.
Qed.

(** C1, the claim as stated fails: on a settled grid Keeper, an append
    that the remote reports with zero updated rows raises an error and yet
    leaves the grid Keeper empty, not as it was. *)
Lemma append_zero_updated_rows_resets_grid :
  let this := instance_of example_options in
  let w := snd (rows this (constructor example_options rejecting_sheet)) in
  keptSheet w = Keeper.Settled [["Name"; "Email"]; ["Ada"; "ada@x.com"]; [EmptyString; "b@x.com"]]
  /\ fst (append this (InputRowArray [VString "x"]) w) = Err FailedToSave
  /\ keptSheet (snd (append this (InputRowArray [VString "x"]) w)) = Keeper.Empty
  /\ keptSheet (snd (append this (InputRowArray [VString "x"]) w)) <> keptSheet w.
Proof. repeat split. discriminate. Qed.

(** C2 (as amended).  A positional row is transmitted as it was given.  For
    a key-to-value mapping, once [columns()] has resolved, the transmitted
    row holds, at every position, the configured sanitize function applied
    to the value looked up for the column at that position; when
    [columns()] does not resolve, nothing is transmitted. *)
Theorem append_sanitizes_mapped_cells
    {R : Type} `{RemoteSource R} (this : Gsheet) (w : World R) :
  (forall row,
      calls_since w (snd (append this (InputRowArray row) w))
      = [ValuesAppend (spreadsheetId this) (range this) row])
  /\ (forall obj,
        match fst (columns this w) with
        | Ok cs =>
            calls_since (snd (columns this w)) (snd (append this (InputRowObject obj) w))
            = [ValuesAppend (spreadsheetId this) (range this) (row_of_entries this obj cs)]
            /\ List.Forall (fun v => exists u, v = sanitize this u) (row_of_entries this obj cs)
            /\ List.Forall2
                 (fun v column =>
                    v = sanitize this
                          (lookup_entry
                             (map (fun entry => (JsString.toLowerCase (fst entry), snd entry)) obj)
                             column))
                 (row_of_entries this obj cs) cs
        | _ => snd (append this (InputRowObject obj) w) = snd (columns this w)
        end).
Proof.
  split.
  - intros row. apply calls_since_app, append_array_calls.
  - intros obj. destruct (fst (columns this w)) as [cs|e|] eqn:E.
    + split; [apply calls_since_app, append_object_calls; exact E|].
      unfold row_of_entries. split.
      * apply List.Forall_forall. intros v Hin.
        apply in_map_iff in Hin. destruct Hin as (u & Hu & _).
        exists u. symmetry. exact Hu.
      * clear E. induction cs as [|c cs IH]; simpl; constructor; auto.
    + rewrite append_unfold, normalize_object. simpl. rewrite E. reflexivity.
    + rewrite append_unfold, normalize_object. simpl. rewrite E. reflexivity.
Qed.

(** C2, the claim as stated fails: a positional row is transmitted without
    passing through the sanitize function.  The cell ["  a  "] is sent as
    it is, although the sanitize function maps it to ["a"], and no value at
    all is sanitized to ["  a  "]. *)
Lemma append_array_not_sanitized :
  let this := instance_of example_options in
  let w := constructor example_options example_sheet in
  calls_since w (snd (append this (InputRowArray [VString "  a  "]) w))
  = [ValuesAppend "sheet-1" "Sheet1" [VString "  a  "]]
  /\ map (sanitize this) [VString "  a  "] = [VString "a"]
  /\ forall u, sanitize this u <> VString "  a  ".
Proof.
  split; [reflexivity|]. split; [reflexivity|].
  intros u E. apply trim_no_leading_space in E. discriminate.
Qed.

(** C3 (as amended).  For a key-to-value mapping, [append()] resolves the
    column names and transmits one cell per column, in the order of the
    columns: the sanitized value of the first entry whose lower-cased key is
    the lower-cased column name, and, for a column that no key matches, the
    sanitized [undefined]; the default sanitize function leaves [undefined]
    as it is.  With columns ["Name","Email"] and input {email:"x@y.com"}
    the transmitted row is [undefined, "x@y.com"]. *)
Theorem append_object_matches_columns
    {R : Type} `{RemoteSource R} (this : Gsheet) (obj : list (string * Value))
    (w : World R) (cs : list string) :
  fst (columns this w) = Ok cs ->
  calls_since (snd (columns this w)) (snd (append this (InputRowObject obj) w))
  = [ValuesAppend (spreadsheetId this) (range this) (row_of_entries this obj cs)]
  /\ length (row_of_entries this obj cs) = length cs
  /\ (forall i column, cs !! i = Some column ->
        (forall pre k v post,
            obj = pre ++ (k, v) :: post ->
            JsString.toLowerCase k = JsString.toLowerCase column ->
            (forall k' v', In (k', v') pre ->
                           JsString.toLowerCase k' <> JsString.toLowerCase column) ->
            row_of_entries this obj cs !! i = Some (sanitize this v))
        /\ ((forall k v, In (k, v) obj ->
                         JsString.toLowerCase k <> JsString.toLowerCase column) ->
            row_of_entries this obj cs !! i = Some (sanitize this VUndefined)))
  /\ trim VUndefined = VUndefined
  /\ row_of_entries (instance_of example_options)
       [("email", VString "x@y.com")] ["Name"; "Email"]
     = [VUndefined; VString "x@y.com"].
Proof.
  intros E. split; [apply calls_since_app, append_object_calls; exact E|].
  split; [unfold row_of_entries; rewrite !length_map; reflexivity|].
  split; [|split; reflexivity].
  intros i column Ei. rewrite (row_of_entries_lookup this obj cs i column Ei). split.
  - intros pre k v post -> Ek Hpre. do 2 f_equal.
    rewrite map_app. simpl.
    apply lookup_entry_first; [exact Ek|].
    intros k' v' Hin. apply in_map_iff in Hin. destruct Hin as ([k0 v0] & E0 & Hin).
    simpl in E0. inversion E0; subst. apply (Hpre k0 v'). exact Hin.
  - intros Hno. do 2 f_equal. apply lookup_entry_none.
    intros k v Hin. apply in_map_iff in Hin. destruct Hin as ([k0 v0] & E0 & Hin).
    simpl in E0. inversion E0; subst. apply (Hno k0 v). exact Hin.
Qed.

Lemma append_object_matches_columns_witness :
  let this := instance_of example_options in
  let w := constructor example_options example_sheet in
  let obj := [("EMAIL", VString "x@y.com")] in
  fst (columns this w) = Ok ["Name"; "Email"]
  /\ calls_since (snd (columns this w)) (snd (append this (InputRowObject obj) w))
     = [ValuesAppend "sheet-1" "Sheet1" [VUndefined; VString "x@y.com"]].
Proof.
  split; [reflexivity|].
  exact (proj1 (append_object_matches_columns (instance_of example_options)
                  [("EMAIL", VString "x@y.com")]
                  (constructor example_options example_sheet)
                  ["Name"; "Email"] eq_refl)).
Defined.

(** C3, the claim as stated fails: with columns ["Name","Email"] and input
    {email:"x@y.com"} the cell transmitted for the unmatched column "Name"
    is [undefined], not the empty string. *)
Lemma append_object_unmatched_is_undefined :
  let this := instance_of example_options in
  let w := constructor example_options example_sheet in
  let obj := [("email", VString "x@y.com")] in
  fst (columns this w) = Ok ["Name"; "Email"]
  /\ calls_since (snd (columns this w)) (snd (append this (InputRowObject obj) w))
     = [ValuesAppend "sheet-1" "Sheet1" [VUndefined; VString "x@y.com"]]
  /\ [VUndefined; VString "x@y.com"] <> [VString EmptyString; VString "x@y.com"].
Proof. split; [reflexivity|]. split; [reflexivity | discriminate]. Qed.


(** ** The claims about the Keeper *)

(** C6 (as amended).  When callers (one or more) invoke [get()] on an
    empty Keeper and nothing but their future's settlement follows, the
    producer is invoked exactly once and every caller receives the same
    outcome, the resolved value or the failure, whatever else is still in
    flight.  In every trace of [get()], [fresh()], [start()], timer firings
    and settlements, the Keeper tracks at most one future as [Pending] (the
    one that requesters attach to), exactly one while it is [Pending] and
    none while it is [Empty], and every invocation of the producer is
    either settled or in flight.  In the traces made of [get()] calls and
    settlements only, from a Keeper with nothing in flight, at most one
    producer invocation is in flight at every moment, exactly when the
    Keeper is [Pending]. *)
Theorem keeper_deduplicates_concurrent_gets
    {T : Type} (revive : bool) (k : Keeper.cell T) (c : nat) (cs : list nat)
    (o : Keeper.outcome T) :
  Keeper.coherent k -> Keeper.st k = Keeper.Empty ->
  (exists k',
      Keeper.run revive
        (map Keeper.Get (c :: cs) ++ [Keeper.Settle (length (Keeper.flying k)) o]) k
      = Some k'
      /\ Keeper.invoked k' = S (Keeper.invoked k)
      /\ Keeper.delivered k' = Keeper.delivered k ++ map (fun c' => (c', o)) (c :: cs)
      /\ Keeper.st k' = Keeper.settle o
      /\ Keeper.flying k' = Keeper.flying k)
  /\ (forall es k1, Keeper.run revive es k = Some k1 ->
        Keeper.coherent k1
        /\ (Keeper.tracked_count (Keeper.flying k1) <= 1)%nat
        /\ (Keeper.invoked k1 + length (Keeper.flying k)
            = Keeper.invoked k + Keeper.settles es + length (Keeper.flying k1))%nat)
  /\ (Keeper.flying k = [] ->
      forall es k1,
        forallb Keeper.get_or_settle es = true ->
        Keeper.run revive es k = Some k1 ->
        (length (Keeper.flying k1) <= 1)%nat
        /\ (length (Keeper.flying k1) = 1%nat <-> Keeper.st k1 = Keeper.Pending)).
Proof.
  intros Hk He.
  assert (Hz : Keeper.tracked_count (Keeper.flying k) = 0%nat).
  { unfold Keeper.coherent in Hk. rewrite He in Hk. exact Hk. }
  split; [|split].
  - eexists. split; [apply run_round; assumption|]. simpl. repeat split.
  - intros es k1 Hr.
    pose proof (run_coherent revive es k k1 Hk Hr) as Hc.
    split; [exact Hc|]. split; [apply coherent_tracked; exact Hc|].
    apply (run_invoked revive es k k1 Hr).
  - intros Hnil es k1 Hes Hr.
    assert (H0 : length (Keeper.flying k)
                 = (if Keeper.st_pending (Keeper.st k) then 1%nat else 0%nat)
                 /\ Forall (fun f => Keeper.part f = Keeper.Tracked) (Keeper.flying k)).
    { rewrite Hnil, He. split; [reflexivity | constructor]. }
    pose proof (run_single_flight revive es k k1 Hes H0 Hr) as H1.
    rewrite H1. destruct (Keeper.st k1); simpl; split; try lia; split; intros; congruence.
Qed.

Lemma keeper_deduplicates_concurrent_gets_witness :
  Keeper.coherent idle_cell /\ Keeper.st idle_cell = Keeper.Empty
  /\ exists k',
      Keeper.run true
        (map Keeper.Get [1; 2; 3]%nat ++ [Keeper.Settle 0 (Keeper.Resolved 7%nat)])
        idle_cell = Some k'
      /\ Keeper.invoked k' = 1%nat
      /\ Keeper.delivered k'
         = [(1, Keeper.Resolved 7); (2, Keeper.Resolved 7); (3, Keeper.Resolved 7)]%nat.
Proof.
  split; [reflexivity|]. split; [reflexivity|].
  destruct (keeper_deduplicates_concurrent_gets true idle_cell 1%nat [2; 3]%nat
              (Keeper.Resolved 7%nat))
    as [(k' & Hr & Hi & Hd & _) _]; [reflexivity | reflexivity |].
  exists k'. split; [exact Hr|]. split; [exact Hi | exact Hd].
Defined.

(** C6, the claim as stated fails: a [fresh()] between two [get()] calls,
    or a firing of the timer after a [get()], puts a second producer
    invocation in flight while the first has not settled, whichever way the
    result of a disowned future is treated. *)
Lemma keeper_second_invocation_in_flight :
  option_map (fun k => (Keeper.invoked k, length (Keeper.flying k)))
    (Keeper.run true [Keeper.Get 1; Keeper.Fresh; Keeper.Get 2] idle_cell)
  = Some (2, 2)%nat
  /\ option_map (fun k => (Keeper.invoked k, length (Keeper.flying k)))
       (Keeper.run false [Keeper.Get 1; Keeper.Fresh; Keeper.Get 2] idle_cell)
     = Some (2, 2)%nat
  /\ option_map (fun k => (Keeper.invoked k, length (Keeper.flying k)))
       (Keeper.run true [Keeper.Start 1000; Keeper.Get 1; Keeper.Tick] idle_cell)
     = Some (2, 2)%nat.
Proof. repeat split. Qed.

(** ** The claims about header rows and row objects *)

(** C7.  For an instance configured with [headerRows = 0], at every moment
    of its life (after any calls of its methods and firings of its timer)
    [columns()] fails with an error and [data()] fails with an error, while
    [rows()] resolves whenever the grid does, to all the rows of the grid,
    sanitized and filtered. *)
Theorem zero_header_rows_disable_columns
    {R : Type} `{RemoteSource R} (options : GSheetOptions) (r : R) (ops : list Op) :
  opt_headerRows options = Some 0%Z ->
  let this := instance_of options in
  let w := exec_all this ops (constructor options r) in
  is_Err (fst (columns this w))
  /\ is_Err (fst (data this w))
  /\ fst (rows this w)
     = match fst (keeper_get sheetSlot (getSheet this (range this)) w) with
       | Ok g =>
           Ok (List.filter (fun row => filter this (inl row))
                 (map (fun row => map (sanitize_string (sanitize this)) row) g))
       | Err e => Err e
       | Blocked => Blocked
       end.
Proof.
  intros Hz this w.
  assert (Hzero : headerRows this = 0%Z) by (unfold this; simpl; rewrite Hz; reflexivity).
  destruct (constructor_calm options r) as (Hc0 & Hs0).
  assert (Hinv : keptColumns w = Keeper.Empty /\ keptSheet w <> Keeper.Pending).
  { apply (exec_all_zero this Hzero). split; [exact Hc0|]. rewrite Hs0. discriminate. }
  destruct Hinv as (Hc & Hs).
  split; [apply (columns_zero this Hzero); exact Hc|].
  split; [apply (data_zero this Hzero); assumption|].
  unfold rows, bind, ret.
  destruct (keeper_get sheetSlot (getSheet this (range this)) w) as [[g|e|] w1];
    simpl; try reflexivity.
  rewrite (rows_of_grid_zero this Hzero). reflexivity.
Qed.

Lemma zero_header_rows_disable_columns_witness :
  let this := instance_of zero_header_options in
  let w := exec_all this [CallRows; CallColumns] (constructor zero_header_options example_sheet) in
  opt_headerRows zero_header_options = Some 0%Z
  /\ is_Err (fst (columns this w))
  /\ is_Err (fst (data this w))
  /\ fst (rows this w)
     = Ok [["Name"; "Email"]; ["Ada"; "ada@x.com"]; [EmptyString; "b@x.com"]].
Proof.
  split; [reflexivity|].
  destruct (zero_header_rows_disable_columns zero_header_options example_sheet
              [CallRows; CallColumns] eq_refl) as (Hc & Hd & Hr).
  split; [exact Hc|]. split; [exact Hd|]. rewrite Hr. reflexivity.
Defined.

(** C8.  [data()] builds each row object from a sanitized row and the
    column names by position: the object holds [k := v] exactly when [k] is
    a non-empty column name (other than [__proto__]) and [v] is the cell
    under the last column named [k]; a cell under a column without a name
    (no column at that index, or an empty name) is left out.  With header
    row ["Name", "Email"], data rows [["Ada", "ada@x.com"], [(empty), "b@x.com"]]
    and [headerRows = 1], [data()] yields
    [{Name:"Ada", Email:"ada@x.com"}, {Name:(empty), Email:"b@x.com"}]. *)
Theorem data_zips_cells_with_column_names :
  (forall (keys : list string) (row : RowArray) (k v : string),
      row_object keys row !! k = Some v <->
      JsString.truthy k = true /\ k <> "__proto__"
      /\ exists i, keys !! i = Some k /\ row !! i = Some v
         /\ forall j, (i < j)%nat -> (j < length row)%nat -> keys !! j <> Some k)
  /\ (forall (keys : list string) (obj : RowObject) (value : string) (index : nat),
        keys !! index = None \/ keys !! index = Some EmptyString ->
        assign_cell keys obj value index = obj)
  /\ (forall (R : Type) (RS : RemoteSource R) (this : Gsheet) (w : World R)
             (rs : list RowArray) (ks : list string),
        fst (rows this w) = Ok rs ->
        fst (columns this (snd (rows this w))) = Ok ks ->
        fst (data this w)
        = Ok (List.filter (fun obj => filter this (inr obj)) (map (row_object ks) rs)))
  /\ fst (data (instance_of example_options) (constructor example_options example_sheet))
     = Ok [ {[ "Name" := "Ada"; "Email" := "ada@x.com" ]};
            {[ "Name" := EmptyString; "Email" := "b@x.com" ]} ].
Proof.
  split; [exact row_object_lookup|]. split; [|split].
  - intros keys obj value index [E|E]; unfold assign_cell; rewrite E; reflexivity.
  - intros R RS this w rs ks Er Ec. rewrite data_unfold, Er, Ec. reflexivity.
  - vm_compute. reflexivity.
Qed.

Lemma data_zips_cells_with_column_names_witness :
  row_object ["Name"; EmptyString; "Email"] ["Ada"; "skipped"; "ada@x.com"; "beyond"] !! "Email"
  = Some "ada@x.com"
  /\ assign_cell ["Name"; EmptyString; "Email"] ∅ "skipped" 1 = ∅
  /\ assign_cell ["Name"; EmptyString; "Email"] ∅ "beyond" 3 = ∅.
Proof.
  destruct data_zips_cells_with_column_names as (Hl & Ho & _).
  split; [|split].
  - apply Hl. split; [reflexivity|]. split; [discriminate|].
    exists 2%nat. split; [reflexivity|]. split; [reflexivity|].
    intros j Hij Hj. simpl in Hj.
    destruct j as [|[|[|[|j]]]]; try lia. discriminate.
  - apply Ho. right. reflexivity.
  - apply Ho. left. reflexivity.
Defined.

(** C10.  Once the columns Keeper has settled on a header list, it keeps
    it for the life of the instance: after any calls of the public methods
    ([refresh()] and [append()] among them) and any firings of the timer,
    the columns Keeper still holds that list, [columns()] returns it and
    leaves the world as it is, [data()] uses it as its key list, and no
    narrow header-row fetch has been made. *)
Theorem columns_settle_once
    {R : Type} `{RemoteSource R} (this : Gsheet) (w : World R)
    (cs : list string) (ops : list Op) :
  keptColumns w = Keeper.Settled cs ->
  let w' := exec_all this ops w in
  keptColumns w' = Keeper.Settled cs
  /\ columns this w' = (Ok cs, w')
  /\ header_fetches this (calls_since w w') = 0%nat
  /\ (forall rs, fst (rows this w') = Ok rs ->
        fst (data this w') = Ok (objects_of this cs rs))
  /\ header_fetches this (calls_since w' (snd (data this w'))) = 0%nat.
Proof.
  intros E w'.
  destruct (exec_all_keeps_columns this ops w cs E) as (E' & d & Hd & Hh).
  fold w' in E', Hd.
  split; [exact E'|]. split; [apply columns_settled; exact E'|].
  split; [rewrite (calls_since_app w w' d Hd); exact Hh|]. split.
  - intros rs Er. rewrite data_unfold, Er.
    pose proof (rows_frame this w') as (Hc & _). rewrite E' in Hc.
    rewrite (columns_settled this _ cs Hc). reflexivity.
  - destruct (exec_keeps_columns this CallData w' cs E') as (_ & d' & Hd' & Hh').
    simpl in Hd'. rewrite (calls_since_app w' _ d' Hd'). exact Hh'.
Qed.

Lemma columns_settle_once_witness :
  let this := instance_of example_options in
  let w := snd (columns this (constructor example_options example_sheet)) in
  let ops := [CallRefresh; CallAppend (InputRowArray [VString "Bob"; VString "bob@x.com"]);
              CallData; CallRefresh; CallColumns] in
  keptColumns w = Keeper.Settled ["Name"; "Email"]
  /\ columns this (exec_all this ops w) = (Ok ["Name"; "Email"], exec_all this ops w)
  /\ header_fetches this (calls_since w (exec_all this ops w)) = 0%nat.
Proof.
  intros this w ops.
  assert (E : keptColumns w = Keeper.Settled ["Name"; "Email"]) by reflexivity.
  split; [exact E|].
  destruct (columns_settle_once this w ["Name"; "Email"] ops E) as (_ & Hc & Hh & _).
  split; [exact Hc | exact Hh].
Defined.

(** * Further properties of the code *)

(** ** More on the default sanitize function *)

Section TrimMore.
Import JsString SanitizeSpec.

Lemma words_of_word (w : list ascii) :
  w <> [] -> Forall (fun c => is_white_space c = false) w -> words w = [w].
Proof.
  induction w as [|c r IH]; [contradiction|]. intros _ Hall.
  inversion Hall as [|? ? Hc Hr]; subst. cbn [words]. rewrite Hc.
  destruct r as [|c' r']; [reflexivity|].
  inversion Hr as [|? ? Hc' _]; subst. rewrite Hc'.
  rewrite IH; [reflexivity | discriminate | exact Hr].
Qed.

Lemma words_app_space (w x : list ascii) :
  w <> [] -> Forall (fun c => is_white_space c = false) w ->
  words (w ++ " "%char :: x) = w :: words x.
Proof.
  induction w as [|c r IH]; [contradiction|]. intros _ Hall.
  inversion Hall as [|? ? Hc Hr]; subst.
  destruct r as [|c' r'].
  - simpl. rewrite Hc. reflexivity.
  - inversion Hr as [|? ? Hc' _]; subst.
    change ((c :: c' :: r') ++ " "%char :: x) with (c :: ((c' :: r') ++ " "%char :: x)).
    cbn [words]. rewrite Hc. cbn [app]. rewrite Hc'.
    change (c' :: r' ++ " "%char :: x) with ((c' :: r') ++ " "%char :: x).
    rewrite IH; [reflexivity | discriminate | exact Hr].
Qed.

Lemma words_join_space (ws : list (list ascii)) :
  Forall (fun w => w <> []) ws ->
  Forall (fun w => Forall (fun c => is_white_space c = false) w) ws ->
  words (join_space ws) = ws.
Proof.
  induction ws as [|w rest IH]; [reflexivity|]. intros Hne Hns.
  inversion Hne as [|? ? Hw Hrest]; subst.
  inversion Hns as [|? ? Hw' Hrest']; subst.
  destruct rest as [|w2 rest'].
  - simpl. apply words_of_word; assumption.
  - change (join_space (w :: w2 :: rest'))
      with (w ++ " "%char :: join_space (w2 :: rest')).
    rewrite words_app_space by assumption.
    rewrite IH by assumption. reflexivity.
Qed.

Lemma normalized_idempotent (s : string) :
  normalized (normalized s) = normalized s.
Proof.
  unfold normalized. rewrite list_ascii_of_string_of_list_ascii.
  rewrite words_join_space;
    [reflexivity | apply words_nonempty_words | apply words_no_space].
Qed.

Lemma replace_ws_runs_length (b : bool) (s : list ascii) :
  (length (replace_ws_runs b s) <= length s)%nat.
Proof.
  revert b. induction s as [|c r IH]; intros b; simpl; [lia|].
  destruct (is_white_space c).
  - destruct b; simpl; [specialize (IH true) | specialize (IH true)]; lia.
  - simpl. specialize (IH false). lia.
Qed.

Lemma trim_start_length (s : list ascii) :
  (length (trim_start s) <= length s)%nat.
Proof.
  induction s as [|c r IH]; simpl; [lia|].
  destruct (is_white_space c); simpl; lia.
Qed.

Lemma trim_chars_length (s : list ascii) :
  (length (trim_chars s) <= length s)%nat.
Proof.
  unfold trim_chars, trim_end. rewrite length_rev.
  pose proof (trim_start_length (rev (trim_start s))) as H1.
  rewrite length_rev in H1.
  pose proof (trim_start_length s). lia.
Qed.

Lemma string_length_list (s : string) :
  String.length s = length (list_ascii_of_string s).
Proof. induction s as [|c r IH]; simpl; [reflexivity | rewrite IH; reflexivity]. Qed.

Lemma words_nil_blank (s : string) :
  words (list_ascii_of_string s) = [] <-> blank s = true.
Proof.
  induction s as [|c r IH]; [simpl; tauto|].
  change (list_ascii_of_string (String c r)) with (c :: list_ascii_of_string r).
  cbn [blank]. destruct (is_white_space c) eqn:Hc.
  - cbn [words]. rewrite Hc. simpl. exact IH.
  - simpl. split; [|discriminate].
    intros E. exfalso. exact (words_head_not_space c _ Hc E).
Qed.

End TrimMore.

(** X1.  The default sanitize function is idempotent: sanitizing a cell
    twice gives what sanitizing it once gives. *)
Theorem trim_idempotent (v : Value) : trim (trim v) = trim v.
Proof.
  destruct v as [b|s|n| |]; try reflexivity.
  simpl. f_equal. rewrite !trim_string_normalized. apply normalized_idempotent.
Qed.

(** X2.  The default sanitize function never lengthens a string. *)
Theorem trim_string_never_longer (s : string) :
  (String.length (trim_string s) <= String.length s)%nat.
Proof.
  unfold trim_string, JsString.trim, JsString.replace_ws.
  rewrite !string_length_list, !list_ascii_of_string_of_list_ascii.
  pose proof (trim_chars_length (JsString.replace_ws_runs false (list_ascii_of_string s))).
  pose proof (replace_ws_runs_length false (list_ascii_of_string s)). lia.
Qed.

(** X3.  The default sanitize function returns the empty string exactly for
    the strings made of white space only (the empty string among them). *)
Theorem trim_string_empty_iff_blank (s : string) :
  trim_string s = EmptyString <-> blank s = true.
Proof.
  rewrite trim_string_normalized. unfold SanitizeSpec.normalized.
  rewrite <- words_nil_blank. split.
  - intros E. apply (f_equal list_ascii_of_string) in E.
    rewrite list_ascii_of_string_of_list_ascii in E. simpl in E.
    apply join_space_nil in E; [exact E | apply words_nonempty_words].
  - intros E. rewrite E. reflexivity.
Qed.

(** ** Dates *)

Lemma string_app_assoc (a b c : string) : ((a ++ b) ++ c)%string = (a ++ b ++ c)%string.
Proof.
  induction a as [|x a IH]; [reflexivity|].
  change (String x ((a ++ b) ++ c) = String x (a ++ b ++ c))%string.
  rewrite IH. reflexivity.
Qed.

Lemma numeric_uint (d : Decimal.uint) : numeric (NilEmpty.string_of_uint d) = true.
Proof. induction d; simpl; auto. Qed.

Lemma numeric_of_number (n : Z) : numeric (JsString.of_number n) = true.
Proof.
  unfold JsString.of_number, NilZero.string_of_int, NilZero.string_of_uint.
  destruct (Z.to_int n) as [d|d]; destruct d; simpl; auto using numeric_uint;
    apply numeric_uint.
Qed.

Lemma of_number_inj (a b : Z) :
  JsString.of_number a = JsString.of_number b -> a = b.
Proof.
  unfold JsString.of_number. intros E.
  apply DecimalZ.to_int_inj.
  assert (Hnn : forall z, Z.to_int z <> Decimal.Pos Decimal.Nil
                          /\ Z.to_int z <> Decimal.Neg Decimal.Nil).
  { intros [|p|p]; simpl; split; try discriminate;
      intros [= E']; exact (DecimalPos.Unsigned.to_uint_nonnil p E'). }
  destruct (Hnn a) as (Ha1 & Ha2). destruct (Hnn b) as (Hb1 & Hb2).
  pose proof (NilZero.isi _ Ha1 Ha2) as Ia.
  pose proof (NilZero.isi _ Hb1 Hb2) as Ib.
  rewrite E in Ia. congruence.
Qed.

(** Two renderings followed by the same separator end at the same place. *)
Lemma numeric_prefix_inj (a b : string) (sep : ascii) (r r' : string) :
  numeric a = true -> numeric b = true -> numeric_char sep = false ->
  (a ++ String sep r)%string = (b ++ String sep r')%string ->
  a = b /\ r = r'.
Proof.
  revert b. induction a as [|x a IH]; intros b Ha Hb Hsep E.
  - destruct b as [|y b]; simpl in E.
    + inversion E. auto.
    + inversion E; subst. simpl in Hb. rewrite Hsep in Hb. discriminate.
  - destruct b as [|y b]; simpl in E.
    + inversion E; subst. simpl in Ha. rewrite Hsep in Ha. discriminate.
    + inversion E; subst. simpl in Ha, Hb.
      apply andb_true_iff in Ha. apply andb_true_iff in Hb.
      destruct (IH b) as (-> & ->); [tauto | tauto | exact Hsep | assumption | auto].
Qed.

(** X4.  The renderings of dates are unambiguous although nothing is padded:
    two dates with the same [gSheetDate] agree on month, day and year, and
    two dates with the same [gSheetDateTime] agree on all six fields. *)
Theorem gSheetDate_unambiguous (d1 d2 : JsDate) :
  (gSheetDate d1 = gSheetDate d2 ->
   getMonth d1 = getMonth d2 /\ getDate d1 = getDate d2
   /\ getFullYear d1 = getFullYear d2)
  /\ (gSheetDateTime d1 = gSheetDateTime d2 -> d1 = d2).
Proof.
  assert (Hdate : forall r r',
             (gSheetDate d1 ++ r)%string = (gSheetDate d2 ++ r')%string ->
             getMonth d1 = getMonth d2 /\ getDate d1 = getDate d2
             /\ (JsString.of_number (getFullYear d1) ++ r)%string
                = (JsString.of_number (getFullYear d2) ++ r')%string).
  { intros r r' E. unfold gSheetDate in E.
    rewrite !string_app_assoc in E.
    change ("/" ++ ?x)%string with (String "/" x) in E.
    apply numeric_prefix_inj in E; try apply numeric_of_number; [|reflexivity].
    destruct E as (Em & E).
    change (String "/" ?x) with ("/" ++ x)%string in E.
    rewrite !string_app_assoc in E.
    change ("/" ++ ?x)%string with (String "/" x) in E.
    apply numeric_prefix_inj in E; try apply numeric_of_number; [|reflexivity].
    destruct E as (Ed & E).
    apply of_number_inj in Em. apply of_number_inj in Ed.
    split; [lia|]. split; [exact Ed | exact E]. }
  split.
  - intros E.
    assert (E' : (gSheetDate d1 ++ EmptyString)%string = (gSheetDate d2 ++ EmptyString)%string)
      by (rewrite E; reflexivity).
    apply Hdate in E'. destruct E' as (Em & Ed & Ey).
    split; [exact Em|]. split; [exact Ed|].
    apply of_number_inj.
    assert (Hnil : forall x : string, (x ++ EmptyString)%string = x).
    { induction x as [|c x IHx]; [reflexivity|].
      change (String c (x ++ EmptyString) = String c x)%string.
      rewrite IHx; reflexivity. }
    rewrite !Hnil in Ey. exact Ey.
  - intros E. unfold gSheetDateTime in E.
    apply Hdate in E. destruct E as (Em & Ed & E).
    change (" " ++ ?x)%string with (String " " x) in E.
    apply numeric_prefix_inj in E; try apply numeric_of_number; [|reflexivity].
    destruct E as (Ey & E).
    change (":" ++ ?x)%string with (String ":" x) in E.
    apply numeric_prefix_inj in E; try apply numeric_of_number; [|reflexivity].
    destruct E as (Eh & E).
    apply numeric_prefix_inj in E; try apply numeric_of_number; [|reflexivity].
    destruct E as (Emi & Es).
    apply of_number_inj in Ey, Eh, Emi, Es.
    destruct d1, d2; simpl in *; subst. reflexivity.
Qed.

Lemma gSheetDate_unambiguous_witness :
  gSheetDateTime {| getMonth := 0; getDate := 11; getFullYear := 2024;
                    getHours := 9; getMinutes := 5; getSeconds := 0 |}
  = "1/11/2024 9:5:0"
  /\ gSheetDate {| getMonth := 10; getDate := 1; getFullYear := 2024;
                   getHours := 0; getMinutes := 0; getSeconds := 0 |}
     = "11/1/2024"
  /\ getDate {| getMonth := 10; getDate := 1; getFullYear := 2024;
                getHours := 0; getMinutes := 0; getSeconds := 0 |} = 1%Z.
Proof.
  split; [reflexivity|]. split; [reflexivity|].
  exact (proj1 (proj2 (proj1 (gSheetDate_unambiguous
    {| getMonth := 10; getDate := 1; getFullYear := 2024;
       getHours := 0; getMinutes := 0; getSeconds := 0 |}
    {| getMonth := 10; getDate := 1; getFullYear := 2024;
       getHours := 0; getMinutes := 0; getSeconds := 0 |}) eq_refl))).
Defined.

(** ** Header rows and data rows *)

Lemma columns_of_rows_short (this : Gsheet) (g : Grid) :
  (Z.of_nat (length g) < headerRows this)%Z ->
  columns_of_rows this g = Err (HeaderRowEmpty (headerRows this)).
Proof.
  intros Hlt. unfold columns_of_rows, JsArray.index.
  destruct (0 <=? headerRows this - 1)%Z eqn:Hh; [|reflexivity].
  destruct (g !! Z.to_nat (headerRows this - 1)) as [[|c header]|] eqn:Eg;
    try reflexivity.
  apply lookup_lt_Some in Eg. lia.
Qed.

(** X5.  The header row resolves to column names exactly when
    [1 <= headerRows], the grid has a row at position [headerRows] (counted
    from one) and that row is not empty; the names are then the cells of
    that row, sanitized and key-transformed, one name per cell.  In every
    other case the error is the empty-header error. *)
Theorem columns_of_rows_resolves_iff (this : Gsheet) (g : Grid) :
  (forall cs,
      columns_of_rows this g = Ok cs <->
      exists header,
        (1 <= headerRows this)%Z
        /\ g !! Z.to_nat (headerRows this - 1) = Some header
        /\ header <> []
        /\ cs = map (keyTransform this) (map (sanitize_string (sanitize this)) header))
  /\ (forall cs, columns_of_rows this g = Ok cs ->
        exists header, g !! Z.to_nat (headerRows this - 1) = Some header
                       /\ length cs = length header)
  /\ ((Z.of_nat (length g) < headerRows this)%Z ->
      columns_of_rows this g = Err (HeaderRowEmpty (headerRows this)))
  /\ (forall e, columns_of_rows this g = Err e -> e = HeaderRowEmpty (headerRows this)).
Proof.
  unfold columns_of_rows, JsArray.index.
  destruct (0 <=? headerRows this - 1)%Z eqn:Hh.
  - apply Z.leb_le in Hh.
    destruct (g !! Z.to_nat (headerRows this - 1)) as [[|c header]|] eqn:Eg.
    + split; [|split; [|split]].
      * intros cs. split; [discriminate|]. intros (h & _ & E & Hne & _). congruence.
      * discriminate.
      * reflexivity.
      * congruence.
    + split; [|split; [|split]].
      * intros cs. split.
        -- intros [= <-]. exists (c :: header). repeat split; [lia | discriminate].
        -- intros (h & _ & E & _ & ->). inversion E; subst. reflexivity.
      * intros cs [= <-]. exists (c :: header). split; [reflexivity|].
        simpl. rewrite !length_map. reflexivity.
      * intros Hlt. apply lookup_lt_Some in Eg. lia.
      * discriminate.
    + split; [|split; [|split]].
      * intros cs. split; [discriminate|]. intros (h & _ & E & _). discriminate.
      * discriminate.
      * reflexivity.
      * congruence.
  - apply Z.leb_gt in Hh. split; [|split; [|split]].
    + intros cs. split; [discriminate|]. intros (h & Hle & _). lia.
    + discriminate.
    + reflexivity.
    + congruence.
Qed.

Lemma columns_of_rows_resolves_iff_witness :
  columns_of_rows (instance_of example_options) [] = Err (HeaderRowEmpty 1).
Proof.
  apply (proj1 (proj2 (proj2 (columns_of_rows_resolves_iff
                                (instance_of example_options) [])))).
  reflexivity.
Defined.

(** X6.  The narrow fetch asks for the single row [headerRows], yet the
    producer reads position [headerRows - 1] of what comes back: on a cold
    cache, whenever the remote answers the narrow fetch with fewer than
    [headerRows] rows (one row, for [headerRows >= 2]), [columns()] fails
    with the empty-header error and the columns Keeper stays empty. *)
Theorem columns_narrow_fetch_too_short
    {R : Type} `{RemoteSource R} (this : Gsheet) (w : World R) (g : Grid) :
  keptColumns w = Keeper.Empty ->
  Keeper.stale (keptSheet w) = None ->
  fst (values_get (remote w) (spreadsheetId this) (headerRange this)) = GetReturns (Some g) ->
  (Z.of_nat (length g) < headerRows this)%Z ->
  fst (columns this w) = Err (HeaderRowEmpty (headerRows this))
  /\ keptColumns (snd (columns this w)) = Keeper.Empty
  /\ calls_since w (snd (columns this w)) = [header_get this].
Proof.
  intros Ec Es Eg Hlt.
  assert (Hgc : fst (getColumns this (set_keptColumns Keeper.Pending w))
                = Err (HeaderRowEmpty (headerRows this))).
  { rewrite getColumns_unsettled by exact Es. simpl.
    unfold getSheet. simpl.
    destruct (values_get (remote w) (spreadsheetId this) (headerRange this)) as [resp r'].
    simpl in Eg. subst resp. simpl.
    apply columns_of_rows_short. exact Hlt. }
  rewrite (columns_empty this w Ec), Hgc. simpl.
  split; [reflexivity|]. split; [reflexivity|].
  apply calls_since_app. simpl.
  rewrite getColumns_calls_unsettled by exact Es. reflexivity.
Qed.

Lemma columns_narrow_fetch_too_short_witness :
  let options :=
    {| opt_spreadsheetId := "sheet-1"; opt_range := "Sheet1";
       opt_preload := None; opt_interval := None; opt_headerRows := Some 2%Z;
       opt_keyTransform := None; opt_sanitize := None; opt_filter := None |} in
  let this := instance_of options in
  let w := constructor options example_sheet in
  fst (values_get (remote w) (spreadsheetId this) (headerRange this))
  = GetReturns (Some [["Name"; "Email"]])
  /\ fst (columns this w) = Err (HeaderRowEmpty 2).
Proof.
  intros options this w. split; [reflexivity|].
  apply (columns_narrow_fetch_too_short this w [["Name"; "Email"]]);
    [reflexivity | reflexivity | reflexivity | simpl; lia].
Defined.

(** ** Reads, writes and the cache *)

Section CacheMore.
Context {R : Type} `{RemoteSource R}.
Variable this : Gsheet.

Lemma rows_ok_value (w : World R) (rs : list RowArray) :
  fst (rows this w) = Ok rs ->
  exists g, keptSheet (snd (rows this w)) = Keeper.Settled g /\ rs = rows_of_grid this g.
Proof.
  destruct (keptSheet w) as [| |g] eqn:E.
  - rewrite (rows_empty this w E).
    destruct (fst (getSheet this (range this) (set_keptSheet Keeper.Pending w))) as [g|e|];
      simpl; intros Hr; try discriminate. inversion Hr; subst. exists g. auto.
  - rewrite (rows_pending this w E). discriminate.
  - rewrite (rows_settled this w g E). simpl. intros [= <-]. exists g. auto.
Qed.

Lemma columns_ok_settles (w : World R) (cs : list string) :
  fst (columns this w) = Ok cs ->
  keptColumns (snd (columns this w)) = Keeper.Settled cs.
Proof.
  destruct (keptColumns w) as [| |cs'] eqn:E.
  - rewrite (columns_empty this w E). simpl.
    destruct (fst (getColumns this (set_keptColumns Keeper.Pending w))) as [cs'|e|];
      simpl; intros Hr; try discriminate. inversion Hr; subst. reflexivity.
  - rewrite (columns_pending this w E). discriminate.
  - rewrite (columns_settled this w cs' E). simpl. intros [= <-]. exact E.
Qed.

End CacheMore.

(** X7.  Reads are served from the cache: once [rows()] has resolved, the
    next [rows()] resolves to the same rows and leaves the world (remote,
    log of calls, Keepers) as it is; likewise [columns()] after [columns()]
    and [data()] after [data()]. *)
Theorem reads_are_cached {R : Type} `{RemoteSource R} (this : Gsheet) (w : World R) :
  (forall rs, fst (rows this w) = Ok rs ->
     rows this (snd (rows this w)) = (Ok rs, snd (rows this w)))
  /\ (forall cs, fst (columns this w) = Ok cs ->
        columns this (snd (columns this w)) = (Ok cs, snd (columns this w)))
  /\ (forall os, fst (data this w) = Ok os ->
        data this (snd (data this w)) = (Ok os, snd (data this w))).
Proof.
  split; [|split].
  - intros rs Er. destruct (rows_ok_value this w rs Er) as (g & Eg & ->).
    apply rows_settled. exact Eg.
  - intros cs Ec. apply columns_settled, columns_ok_settles, Ec.
  - intros os Ed.
    assert (Hd : exists rs ks,
               fst (rows this w) = Ok rs
               /\ fst (columns this (snd (rows this w))) = Ok ks
               /\ os = objects_of this ks rs
               /\ snd (data this w) = snd (columns this (snd (rows this w)))).
    { rewrite data_unfold in Ed |- *.
      destruct (fst (rows this w)) as [rs|e|]; try discriminate.
      destruct (fst (columns this (snd (rows this w)))) as [ks|e|]; try discriminate.
      simpl in Ed. inversion Ed; subst os. exists rs, ks. auto. }
    destruct Hd as (rs & ks & Er & Ec & -> & ->).
    destruct (rows_ok_value this w rs Er) as (g & Eg & ->).
    pose proof (columns_ok_settles this _ ks Ec) as Ek.
    pose proof (columns_frame this (snd (rows this w))) as (Es & _).
    rewrite Eg in Es.
    rewrite data_unfold.
    rewrite (rows_settled this _ g Es). simpl.
    rewrite (columns_settled this _ ks Ek). reflexivity.
Qed.

Lemma reads_are_cached_witness :
  let this := instance_of example_options in
  let w := constructor example_options example_sheet in
  rows this (snd (rows this w))
  = (Ok [["Ada"; "ada@x.com"]; [EmptyString; "b@x.com"]], snd (rows this w)).
Proof.
  intros this w. apply (proj1 (reads_are_cached this w)). reflexivity.
Defined.

(** X8.  [rows()] skips the header rows by [slice(headerRows)]: for
    [0 <= headerRows] it keeps the grid rows from position [headerRows] on
    (none when the grid has no more rows than that); for a negative
    [headerRows = -k] it keeps the last [k] rows only.  The kept rows are
    sanitized cell by cell and filtered, in the order of the grid. *)
Theorem rows_of_grid_slice (this : Gsheet) (g : Grid) :
  ((0 <= headerRows this)%Z ->
   rows_of_grid this g
   = List.filter (fun row => filter this (inl row))
       (map (fun row => map (sanitize_string (sanitize this)) row)
          (drop (Z.to_nat (headerRows this)) g)))
  /\ ((Z.of_nat (length g) <= headerRows this)%Z -> rows_of_grid this g = [])
  /\ ((headerRows this < 0)%Z ->
      rows_of_grid this g
      = List.filter (fun row => filter this (inl row))
          (map (fun row => map (sanitize_string (sanitize this)) row)
             (drop (length g - Z.to_nat (- headerRows this)) g))).
Proof.
  unfold rows_of_grid, JsArray.slice_from.
  split; [|split].
  - intros Hh. destruct (headerRows this <? 0)%Z eqn:E; [apply Z.ltb_lt in E; lia|].
    destruct (Z.min_spec (headerRows this) (Z.of_nat (length g))) as [(Hlt & ->)|(Hge & ->)];
      [reflexivity|].
    rewrite Nat2Z.id. rewrite !drop_ge; [reflexivity | lia | lia].
  - intros Hh. destruct (headerRows this <? 0)%Z eqn:E; [apply Z.ltb_lt in E; lia|].
    rewrite Z.min_r by lia. rewrite Nat2Z.id, drop_all. reflexivity.
  - intros Hh. apply Z.ltb_lt in Hh. rewrite Hh. apply Z.ltb_lt in Hh.
    do 3 f_equal. lia.
Qed.

Lemma rows_of_grid_slice_witness :
  let negative :=
    {| opt_spreadsheetId := "sheet-1"; opt_range := "Sheet1";
       opt_preload := None; opt_interval := None; opt_headerRows := Some (-1)%Z;
       opt_keyTransform := None; opt_sanitize := None; opt_filter := None |} in
  rows_of_grid (instance_of negative)
    [["Name"; "Email"]; ["Ada"; "ada@x.com"]; [EmptyString; "b@x.com"]]
  = [[EmptyString; "b@x.com"]]
  /\ rows_of_grid (instance_of example_options) [["Name"; "Email"]] = [].
Proof.
  intros negative. split.
  - rewrite (proj2 (proj2 (rows_of_grid_slice (instance_of negative) _)));
      [reflexivity | simpl; lia].
  - apply (proj1 (proj2 (rows_of_grid_slice (instance_of example_options) _))).
    simpl. lia.
Defined.

(** X9.  [append()] resolves exactly when the row could be built, the
    remote call returned, and the response reports a positive number of
    updated rows; it then resolves to that response. *)
Theorem append_resolves_iff
    {R : Type} `{RemoteSource R} (this : Gsheet) (arg : AppendInput) (w : World R)
    (response : option Z) :
  fst (append this arg w) = Ok response <->
  exists row n,
    fst (normalizeInputData this arg w) = Ok row
    /\ fst (values_append (remote (snd (normalizeInputData this arg w)))
              (spreadsheetId this) (range this) row) = AppendReturns response
    /\ response = Some n /\ (0 < n)%Z.
Proof.
  rewrite append_unfold. cbv zeta.
  destruct (fst (normalizeInputData this arg w)) as [row|e|]; simpl.
  - destruct (values_append _ _ _ row) as [[reason|updated] r'] eqn:Ev; simpl.
    + split; [discriminate|]. intros (row' & n & [= <-] & E & _).
      rewrite Ev in E. discriminate.
    + destruct updated as [n|]; simpl.
      * destruct (0 <? n)%Z eqn:En; simpl.
        -- apply Z.ltb_lt in En. split.
           ++ intros [= <-]. exists row, n. rewrite Ev. auto.
           ++ intros (row' & n' & [= <-] & E & _). rewrite Ev in E. simpl in E. congruence.
        -- apply Z.ltb_ge in En. split; [discriminate|].
           intros (row' & n' & [= <-] & E & -> & Hn). rewrite Ev in E. simpl in E.
           inversion E; subst. lia.
      * split; [discriminate|].
        intros (row' & n' & [= <-] & E & -> & Hn). rewrite Ev in E. discriminate.
  - split; [discriminate|]. intros (row & n & E & _). discriminate.
  - split; [discriminate|]. intros (row & n & E & _). discriminate.
Qed.

(** ** How many remote calls a method makes *)

(** X11.  No method ever removes or rewrites an entry of the log of remote
    calls, and each adds few: [rows()], [columns()], [data()] and a firing
    of the timer make at most one remote call, [append()] at most two (a
    header fetch and the append), [refresh()] and [keepFresh()] none. *)
Theorem exec_remote_calls_bounded
    {R : Type} `{RemoteSource R} (this : Gsheet) (op : Op) (w : World R) :
  exists d,
    calls (exec this op w) = calls w ++ d
    /\ (length d <= match op with
                    | CallAppend _ => 2
                    | CallRefresh | CallKeepFresh _ => 0
                    | _ => 1
                    end)%nat.
Proof.
  destruct op; simpl.
  - rewrite rows_calls. eexists; split; [reflexivity|].
    destruct (keptSheet w); simpl; lia.
  - rewrite columns_calls. eexists; split; [reflexivity|].
    destruct (keptColumns w), (Keeper.stale (keptSheet w)); simpl; lia.
  - rewrite data_unfold.
    pose proof (rows_calls this w) as Hr.
    pose proof (columns_calls this (snd (rows this w))) as Hc.
    destruct (fst (rows this w)) as [rs|e|] eqn:Er; simpl.
    + destruct (rows_ok_settles this w rs Er) as (g & Eg).
      rewrite Eg in Hc. simpl in Hc.
      assert (Hc' : calls (snd (columns this (snd (rows this w)))) = calls (snd (rows this w))).
      { rewrite Hc. destruct (keptColumns (snd (rows this w))); apply app_nil_r. }
      exists (match keptSheet w with Keeper.Empty => [full_get this] | _ => [] end).
      split; [|destruct (keptSheet w); simpl; lia].
      destruct (fst (columns this (snd (rows this w)))); simpl; congruence.
    + eexists; split; [exact Hr|]. destruct (keptSheet w); simpl; lia.
    + eexists; split; [exact Hr|]. destruct (keptSheet w); simpl; lia.
  - rewrite append_unfold. cbv zeta.
    pose proof (normalize_calls this arg w) as Hn.
    set (dn := match arg, keptColumns w, Keeper.stale (keptSheet w) with
               | InputRowObject _, Keeper.Empty, None => [header_get this]
               | _, _, _ => []
               end) in Hn.
    assert (Hdn : (length dn <= 1)%nat).
    { unfold dn. destruct arg, (keptColumns w), (Keeper.stale (keptSheet w)); simpl; lia. }
    destruct (fst (normalizeInputData this arg w)) as [row|e|]; simpl.
    + destruct (values_append _ _ _ row) as [[reason|n] r']; simpl;
        exists (dn ++ [ValuesAppend (spreadsheetId this) (range this) row]);
        (split; [rewrite Hn, app_assoc; reflexivity | rewrite length_app; simpl; lia]).
    + exists dn. split; [exact Hn | lia].
    + exists dn. split; [exact Hn | lia].
  - exists []. rewrite app_nil_r. split; [reflexivity | simpl; lia].
  - exists []. rewrite app_nil_r. split; [reflexivity | simpl; lia].
  - rewrite tick_calls. eexists; split; [reflexivity|].
    destruct (sheetTimer w); simpl; lia.
Qed.

(** ** Row objects *)

Lemma assign_cell_size (keys : list string) (obj : RowObject) (value : string) (n : nat) :
  (size (assign_cell keys obj value n) <= size obj + (if decide (n < length keys)%nat then 1 else 0))%nat.
Proof.
  unfold assign_cell. destruct (keys !! n) as [key|] eqn:Ek.
  - apply lookup_lt_Some in Ek. destruct (decide _); [|lia].
    destruct (JsString.truthy key); [|lia].
    destruct (String.eqb key "__proto__"); [lia|].
    destruct (obj !! key) eqn:Eo.
    + rewrite map_size_insert_Some by eauto. lia.
    + rewrite map_size_insert_None by assumption. lia.
  - destruct (decide _); lia.
Qed.

Lemma reduce_row_size (keys : list string) (row : RowArray) (n : nat) (obj : RowObject) :
  (size (reduce_row keys n row obj) <= size obj + Nat.min (length row) (length keys - n))%nat.
Proof.
  revert n obj. induction row as [|x rest IH]; intros n obj; cbn [reduce_row length]; [lia|].
  specialize (IH (S n) (assign_cell keys obj x n)).
  pose proof (assign_cell_size keys obj x n) as Ha.
  destruct (decide (n < length keys)%nat); lia.
Qed.

Lemma reduce_row_keys (keys : list string) (row : RowArray) (n : nat) (obj : RowObject)
    (k : string) :
  is_Some (reduce_row keys n row obj !! k) -> is_Some (obj !! k) \/ k ∈ keys.
Proof.
  revert n obj. induction row as [|x rest IH]; intros n obj Hk; [left; exact Hk|].
  simpl in Hk. destruct (IH _ _ Hk) as [Ho|Hin]; [|right; exact Hin].
  rewrite assign_cell_lookup in Ho.
  destruct (decide _) as [(E & _)|_]; [|left; exact Ho].
  right. apply list_elem_of_lookup. eauto.
Qed.

(** X12.  A row object never has more properties than the row has cells,
    nor more than there are columns, and every property of it is named
    after a column. *)
Theorem row_object_bounded (keys : list string) (row : RowArray) :
  (size (row_object keys row) <= Nat.min (length row) (length keys))%nat
  /\ forall k, is_Some (row_object keys row !! k) -> k ∈ keys.
Proof.
  split.
  - pose proof (reduce_row_size keys row 0 ∅) as Hs.
    rewrite map_size_empty in Hs. unfold row_object.
    replace (length keys - 0)%nat with (length keys) in Hs by lia. lia.
  - intros k Hk. destruct (reduce_row_keys keys row 0 ∅ k Hk) as [He|Hin]; [|exact Hin].
    rewrite lookup_empty in He. destruct He as [? He]. discriminate.
Qed.

(** X13.  Under a column whose name is not empty, is not [__proto__] and is
    borne by no other column, the row object holds the cell at the column's
    position, and has no such property when the row is too short to reach
    that position (trailing cells the remote left out are absent, not
    empty). *)
Theorem row_object_named_column (keys : list string) (row : RowArray) (i : nat) (k : string) :
  keys !! i = Some k ->
  JsString.truthy k = true -> k <> "__proto__" ->
  (forall j, j <> i -> keys !! j <> Some k) ->
  row_object keys row !! k = row !! i.
Proof.
  intros Ek Ht Hp Huniq.
  destruct (row !! i) as [v|] eqn:Ev.
  - apply row_object_lookup. split; [exact Ht|]. split; [exact Hp|].
    exists i. split; [exact Ek|]. split; [exact Ev|].
    intros j Hij _. apply Huniq. lia.
  - destruct (row_object keys row !! k) as [v|] eqn:Eo; [|reflexivity].
    apply row_object_lookup in Eo. destruct Eo as (_ & _ & j & Ej & Evj & _).
    destruct (decide (j = i)) as [->|Hne]; [congruence|].
    exfalso. exact (Huniq j Hne Ej).
Qed.

Lemma row_object_named_column_witness :
  row_object ["Name"; "Email"; "Phone"] ["Ada"; "ada@x.com"] !! "Email" = Some "ada@x.com"
  /\ row_object ["Name"; "Email"; "Phone"] ["Ada"; "ada@x.com"] !! "Phone" = None.
Proof.
  split.
  - apply (row_object_named_column ["Name"; "Email"; "Phone"] ["Ada"; "ada@x.com"] 1 "Email");
      [reflexivity | reflexivity | discriminate |].
    intros [|[|[|j]]] Hj; try discriminate. contradiction.
  - apply (row_object_named_column ["Name"; "Email"; "Phone"] ["Ada"; "ada@x.com"] 2 "Phone");
      [reflexivity | reflexivity | discriminate |].
    intros [|[|[|j]]] Hj; try discriminate. contradiction.
Defined.

(** ** Matching the keys of a mapping *)

Lemma toLowerCase_lookup_entry (entries : list (string * Value)) (c c' : string) :
  JsString.toLowerCase c = JsString.toLowerCase c' ->
  lookup_entry entries c = lookup_entry entries c'.
Proof. intros E. unfold lookup_entry. rewrite E. reflexivity. Qed.

Lemma lookup_entry_skip (pre post : list (string * Value)) (k : string) (v : Value)
    (column : string) :
  k <> JsString.toLowerCase column ->
  lookup_entry (pre ++ (k, v) :: post) column = lookup_entry (pre ++ post) column.
Proof.
  intros Hne. unfold lookup_entry.
  induction pre as [|[k' v'] pre IH]; simpl.
  - apply String.eqb_neq in Hne. rewrite Hne. reflexivity.
  - destruct (String.eqb k' (JsString.toLowerCase column)); [reflexivity | exact IH].
Qed.

Lemma lookup_entry_shadowed (pre mid post : list (string * Value)) (k : string)
    (v v' : Value) (column : string) :
  lookup_entry (pre ++ (k, v) :: mid ++ (k, v') :: post) column
  = lookup_entry (pre ++ (k, v) :: mid ++ post) column.
Proof.
  unfold lookup_entry.
  induction pre as [|[k0 v0] pre IH]; simpl.
  - destruct (String.eqb k (JsString.toLowerCase column)) eqn:E; [reflexivity|].
    induction mid as [|[k1 v1] mid IHm]; simpl.
    + rewrite E. reflexivity.
    + destruct (String.eqb k1 (JsString.toLowerCase column)); [reflexivity | exact IHm].
  - destruct (String.eqb k0 (JsString.toLowerCase column)); [reflexivity | exact IH].
Qed.

(** X14.  The row built from a mapping depends on the keys and on the
    column names only through their lower-casing: mappings whose keys agree
    up to case (with the same values in the same order) give the same row,
    for column names that agree up to case. *)
Theorem row_of_entries_case_insensitive
    (this : Gsheet) (obj obj' : list (string * Value)) (cs cs' : list string) :
  map (fun entry => (JsString.toLowerCase (fst entry), snd entry)) obj
  = map (fun entry => (JsString.toLowerCase (fst entry), snd entry)) obj' ->
  map JsString.toLowerCase cs = map JsString.toLowerCase cs' ->
  row_of_entries this obj cs = row_of_entries this obj' cs'.
Proof.
  intros Eo Ec. unfold row_of_entries. rewrite <- Eo. f_equal.
  revert cs' Ec. induction cs as [|c cs IH]; intros [|c' cs'] Ec; try discriminate;
    [reflexivity|].
  simpl in Ec. inversion Ec as [[Eh Et]]. simpl.
  rewrite (toLowerCase_lookup_entry _ c c' Eh), (IH cs' Et). reflexivity.
Qed.

Lemma row_of_entries_case_insensitive_witness :
  row_of_entries (instance_of example_options)
    [("EMAIL", VString "x@y.com"); ("name", VString "Ada")] ["Name"; "Email"]
  = row_of_entries (instance_of example_options)
      [("email", VString "x@y.com"); ("Name", VString "Ada")] ["NAME"; "eMail"].
Proof.
  apply row_of_entries_case_insensitive; reflexivity.
Defined.

(** X15.  An entry of the mapping whose key matches no column name is
    silently left out of the transmitted row: the row is the same with and
    without it. *)
Theorem row_of_entries_ignores_unmatched
    (this : Gsheet) (pre post : list (string * Value)) (k : string) (v : Value)
    (cs : list string) :
  (forall column, In column cs ->
                  JsString.toLowerCase k <> JsString.toLowerCase column) ->
  row_of_entries this (pre ++ (k, v) :: post) cs = row_of_entries this (pre ++ post) cs.
Proof.
  intros Hno. unfold row_of_entries. f_equal.
  rewrite !map_app. simpl.
  apply map_ext_in. intros column Hin. apply lookup_entry_skip, Hno, Hin.
Qed.

Lemma row_of_entries_ignores_unmatched_witness :
  row_of_entries (instance_of example_options)
    [("email", VString "x@y.com"); ("phone", VString "555")] ["Name"; "Email"]
  = [VUndefined; VString "x@y.com"].
Proof.
  refine (eq_trans
            (row_of_entries_ignores_unmatched (instance_of example_options)
               [("email", VString "x@y.com")] [] "phone" (VString "555")
               ["Name"; "Email"] _) _).
  - intros column [<-|[<-|[]]]; discriminate.
  - reflexivity.
Defined.

(** X16.  When two keys of the mapping agree up to case, the first entry
    decides: the later one has no effect on the transmitted row. *)
Theorem row_of_entries_first_key_wins
    (this : Gsheet) (pre mid post : list (string * Value)) (k k' : string) (v v' : Value)
    (cs : list string) :
  JsString.toLowerCase k = JsString.toLowerCase k' ->
  row_of_entries this (pre ++ (k, v) :: mid ++ (k', v') :: post) cs
  = row_of_entries this (pre ++ (k, v) :: mid ++ post) cs.
Proof.
  intros Ek. unfold row_of_entries. f_equal.
  rewrite !map_app. simpl. rewrite !map_app. simpl. rewrite <- Ek.
  apply map_ext. intros column. apply lookup_entry_shadowed.
Qed.

Lemma row_of_entries_first_key_wins_witness :
  row_of_entries (instance_of example_options)
    [("Email", VString "first@x.com"); ("EMAIL", VString "second@x.com")] ["Name"; "Email"]
  = [VUndefined; VString "first@x.com"].
Proof.
  refine (eq_trans
            (row_of_entries_first_key_wins (instance_of example_options)
               [] [] [] "Email" "EMAIL" (VString "first@x.com") (VString "second@x.com")
               ["Name"; "Email"] _) _); reflexivity.
Defined.

(** ** The earlier implementation *)

Section LegacyProofs.
Import Legacy.
Context {R : Type} `{RemoteSource R}.
Variable this : Gsheet.

Lemma legacy_calls_since_app (s s' : State R) (d : list Call) :
  Legacy.calls s' = Legacy.calls s ++ d -> Legacy.calls_since s s' = d.
Proof. intros E. unfold Legacy.calls_since. rewrite E. apply drop_app_length. Qed.

Lemma fetch_frame (rng : string) (s : State R) :
  Legacy.calls (snd (_fetch this rng s))
  = Legacy.calls s ++ [ValuesGet (spreadsheetId this) rng]
  /\ cache (snd (_fetch this rng s)) = cache s
  /\ columnCache (snd (_fetch this rng s)) = columnCache s
  /\ timer (snd (_fetch this rng s)) = timer s.
Proof.
  unfold _fetch.
  destruct (values_get (Legacy.remote s) (spreadsheetId this) rng) as [[reason|[values|]] r'];
    simpl; auto.
Qed.

Lemma start_refresh_spec (s : State R) :
  Legacy.calls (snd (start_refresh this s)) = Legacy.calls s ++ [full_get this]
  /\ cache (snd (start_refresh this s)) = Some (then_ (fst (start_refresh this s)) of_grid)
  /\ ((0 < headerRows this)%Z ->
      columnCache (snd (start_refresh this s))
      = Some (then_ (fst (start_refresh this s))
                (fun rows => JsArray.index rows (headerRows this - 1))))
  /\ ((headerRows this <= 0)%Z ->
      columnCache (snd (start_refresh this s)) = columnCache s)
  /\ timer (snd (start_refresh this s)) = timer s.
Proof.
  unfold start_refresh.
  pose proof (fetch_frame (range this) s) as (Hc & _ & Hcc & Ht).
  destruct (_fetch this (range this) s) as [fetched s1]. simpl in *.
  split; [exact Hc|]. split; [reflexivity|]. split; [|split; [|exact Ht]].
  - intros Hh. apply Z.ltb_lt in Hh. rewrite Hh. reflexivity.
  - intros Hh. apply Z.ltb_ge in Hh. rewrite Hh. exact Hcc.
Qed.

Lemma raw_cached (s : State R) (p : Promise (list AnyRow)) :
  cache s = Some p -> _raw this s = (p, s).
Proof. intros E. unfold _raw. rewrite E. reflexivity. Qed.

Lemma rows_cached (s : State R) (p : Promise (list AnyRow)) :
  cache s = Some p ->
  Legacy.rows this s
  = (then_ p (fun raw => map (fun row => map (sanitize_value (sanitize this)) row)
                           (JsArray.slice_from raw (headerRows this))), s).
Proof.
  intros E. unfold Legacy.rows, lbind. rewrite (raw_cached s p E).
  destruct p; reflexivity.
Qed.

Lemma columns_cached (s : State R) (p : Promise (option RowArray)) :
  (0 < headerRows this)%Z -> columnCache s = Some p ->
  _columns this s
  = (match p with
     | Fulfilled (Some (c :: columns)) =>
         Fulfilled (map (keyTransform this)
                      (map (sanitize_string (sanitize this)) (c :: columns)))
     | Fulfilled _ => Rejected (Common (HeaderRowEmpty (headerRows this)))
     | Rejected e => Rejected e
     end, s).
Proof.
  intros Hh E. unfold _columns, column_promise.
  apply Z.ltb_lt in Hh. rewrite Hh, E. simpl.
  destruct p as [[[|c cs]|]|e]; reflexivity.
Qed.

Lemma columns_guard (s : State R) :
  (headerRows this <= 0)%Z -> _columns this s = (Rejected HeaderRowsNotPositive, s).
Proof.
  intros Hh. unfold _columns. apply Z.ltb_ge in Hh. rewrite Hh. reflexivity.
Qed.

Lemma columns_cold (s : State R) :
  (0 < headerRows this)%Z -> columnCache s = None ->
  Legacy.calls (snd (_columns this s)) = Legacy.calls s ++ [header_get this]
  /\ cache (snd (_columns this s)) = cache s
  /\ timer (snd (_columns this s)) = timer s.
Proof.
  intros Hh E. unfold _columns, column_promise.
  apply Z.ltb_lt in Hh. rewrite Hh, E. simpl.
  pose proof (fetch_frame (headerRange this) s) as (Hc & Hca & _ & Ht).
  destruct (_fetch this (headerRange this) s) as [fetched s1]. simpl in *.
  destruct fetched as [g|e]; simpl.
  - destruct (JsArray.index g (headerRows this - 1)) as [[|c cs]|]; simpl; auto.
  - auto.
Qed.

Lemma rows_cold (s : State R) :
  cache s = None ->
  Legacy.calls (snd (Legacy.rows this s)) = Legacy.calls s ++ [full_get this].
Proof.
  intros E. unfold Legacy.rows, lbind, _raw. rewrite E.
  pose proof (start_refresh_spec s) as (Hc & _).
  destruct (start_refresh this s) as [fetched s']. simpl in *.
  destruct fetched; simpl; exact Hc.
Qed.

Lemma data_unfold_legacy (s : State R) :
  Legacy.data this s =
  match fst (_columns this s) with
  | Fulfilled keys =>
      match fst (Legacy.rows this (snd (_columns this s))) with
      | Fulfilled rows =>
          (Fulfilled
             (map (fun row =>
                     Legacy.reduce_row keys 0 (map (sanitize_value (sanitize this)) row)
                       empty_object) rows),
           snd (Legacy.rows this (snd (_columns this s))))
      | Rejected e => (Rejected e, snd (Legacy.rows this (snd (_columns this s))))
      end
  | Rejected e => (Rejected e, snd (_columns this s))
  end.
Proof.
  unfold Legacy.data, lbind.
  destruct (_columns this s) as [[keys|e] s1]; simpl; [|reflexivity].
  destruct (Legacy.rows this s1) as [[rs|e] s2]; reflexivity.
Qed.

Lemma reduce_row_overflow (keys : list string) (row : AnyRow) (n : nat) (obj : JsObject) :
  row <> [] -> (length keys < n + length row)%nat ->
  own (Legacy.reduce_row keys n row obj) !! "undefined" = last row.
Proof.
  revert n obj. induction row as [|x rest IH]; intros n obj Hne Hlen; [contradiction|].
  destruct rest as [|y rest'].
  - simpl in *. unfold property_key.
    rewrite lookup_ge_None_2 by lia. simpl.
    unfold assign. simpl. apply lookup_insert_eq.
  - change (own (Legacy.reduce_row keys (S n) (y :: rest')
                   (assign obj (property_key keys n) x)) !! "undefined"
            = last (y :: rest')).
    apply IH; [discriminate | simpl in *; lia].
Qed.

End LegacyProofs.

(** X17.  In the first version, [_columns] guards against a [headerRows]
    that is not positive before anything else: [_columns()], [data()] and
    an [append()] of a mapping then fail at once, with no remote call and
    no change of state. *)
Theorem legacy_header_rows_guard
    {R : Type} `{RemoteSource R} (this : Gsheet) (s : Legacy.State R) :
  (headerRows this <= 0)%Z ->
  Legacy._columns this s = (Legacy.Rejected Legacy.HeaderRowsNotPositive, s)
  /\ Legacy.data this s = (Legacy.Rejected Legacy.HeaderRowsNotPositive, s)
  /\ forall obj,
       Legacy.append this (InputRowObject obj) s
       = (Legacy.Rejected Legacy.HeaderRowsNotPositive, s).
Proof.
  intros Hh. pose proof (columns_guard this s Hh) as Hg.
  split; [exact Hg|]. split.
  - rewrite data_unfold_legacy, Hg. reflexivity.
  - intros obj. unfold Legacy.append, Legacy.input_row, Legacy.lbind. rewrite Hg. reflexivity.
Qed.

Lemma legacy_header_rows_guard_witness :
  let s := Legacy.create zero_header_options example_sheet in
  Legacy.data (instance_of zero_header_options) s
  = (Legacy.Rejected Legacy.HeaderRowsNotPositive, s).
Proof.
  intros s.
  assert (Hh : (headerRows (instance_of zero_header_options) <= 0)%Z) by (simpl; lia).
  exact (proj1 (proj2 (legacy_header_rows_guard (instance_of zero_header_options) s Hh))).
Defined.

(** X18.  In the first version a failed fetch stays in the cache: after a
    [refresh()] whose fetch failed, every [rows()] fails with the same
    error, and so does every [data()] when [headerRows > 0], each without
    any remote call and without changing the state. *)
Theorem legacy_failed_fetch_is_cached
    {R : Type} `{RemoteSource R} (this : Gsheet) (s : Legacy.State R) (e : Legacy.LegacyError) :
  fst (Legacy.refresh this s) = Legacy.Rejected e ->
  let s1 := snd (Legacy.refresh this s) in
  Legacy.rows this s1 = (Legacy.Rejected e, s1)
  /\ ((0 < headerRows this)%Z -> Legacy.data this s1 = (Legacy.Rejected e, s1)).
Proof.
  intros Er s1. unfold s1, Legacy.refresh in *.
  pose proof (start_refresh_spec this s) as (_ & Hca & Hcc & _).
  destruct (Legacy.start_refresh this s) as [fetched s']. simpl in *.
  destruct fetched as [g|e']; simpl in Er; [discriminate|]. inversion Er; subst e'.
  split.
  - rewrite (rows_cached this s' _ Hca). reflexivity.
  - intros Hh. rewrite data_unfold_legacy.
    rewrite (columns_cached this s' _ Hh (Hcc Hh)). reflexivity.
Qed.

(** X19.  In the first version a [data()] that succeeds on a cold cache
    costs two fetches: [_columns()] comes first and makes the narrow fetch,
    then [rows()] makes the full fetch. *)
Theorem legacy_data_cold_cache_two_fetches
    {R : Type} `{RemoteSource R} (this : Gsheet) (s : Legacy.State R)
    (objects : list Legacy.JsObject) :
  Legacy.cache s = None -> Legacy.columnCache s = None ->
  fst (Legacy.data this s) = Legacy.Fulfilled objects ->
  Legacy.calls_since s (snd (Legacy.data this s)) = [header_get this; full_get this].
Proof.
  intros Eca Ecc Ed. apply legacy_calls_since_app.
  destruct (Z_lt_le_dec 0 (headerRows this)) as [Hh|Hh].
  - pose proof (columns_cold this s Hh Ecc) as (Hc & Hca & _).
    rewrite Eca in Hca.
    pose proof (rows_cold this _ Hca) as Hr.
    rewrite data_unfold_legacy in Ed |- *.
    destruct (fst (Legacy._columns this s)) as [keys|e']; [|discriminate].
    destruct (fst (Legacy.rows this (snd (Legacy._columns this s)))) as [rs|e'];
      [|discriminate].
    simpl. rewrite Hr, Hc, <- app_assoc. reflexivity.
  - rewrite data_unfold_legacy, (columns_guard this s Hh) in Ed. discriminate.
Qed.

Lemma legacy_data_cold_cache_two_fetches_witness :
  let this := instance_of cold_options in
  let s := Legacy.create cold_options example_sheet in
  Legacy.calls_since s (snd (Legacy.data this s))
  = [ValuesGet "sheet-1" "Sheet1!A1:ZZZ1"; ValuesGet "sheet-1" "Sheet1"].
Proof.
  intros this s.
  destruct (fst (Legacy.data this s)) as [objects|e] eqn:Ed; [|discriminate].
  exact (legacy_data_cold_cache_two_fetches this s objects eq_refl eq_refl Ed).
Defined.

(** X20.  In the first version, with [headerRows > 0], one [refresh()]
    fills both caches from a single fetch: after it, [_columns()], [rows()]
    and [data()] leave the state as it is, so none makes a remote call. *)
Theorem legacy_refresh_fills_both_caches
    {R : Type} `{RemoteSource R} (this : Gsheet) (s : Legacy.State R) :
  (0 < headerRows this)%Z ->
  let s1 := snd (Legacy.refresh this s) in
  Legacy.calls_since s s1 = [full_get this]
  /\ snd (Legacy._columns this s1) = s1
  /\ snd (Legacy.rows this s1) = s1
  /\ snd (Legacy.data this s1) = s1.
Proof.
  intros Hh s1. unfold s1, Legacy.refresh.
  pose proof (start_refresh_spec this s) as (Hc & Hca & Hcc & _).
  destruct (Legacy.start_refresh this s) as [fetched s']. simpl in *.
  specialize (Hcc Hh).
  split; [apply legacy_calls_since_app; exact Hc|].
  assert (Hcols : snd (Legacy._columns this s') = s')
    by (rewrite (columns_cached this s' _ Hh Hcc); reflexivity).
  assert (Hrows : snd (Legacy.rows this s') = s')
    by (rewrite (rows_cached this s' _ Hca); reflexivity).
  split; [exact Hcols|]. split; [exact Hrows|].
  rewrite data_unfold_legacy.
  destruct (fst (Legacy._columns this s')); simpl; [|exact Hcols].
  rewrite Hcols.
  destruct (fst (Legacy.rows this s')); simpl; exact Hrows.
Qed.

Lemma legacy_refresh_fills_both_caches_witness :
  let this := instance_of cold_options in
  let s := Legacy.create cold_options example_sheet in
  Legacy.calls_since (snd (Legacy.refresh this s))
    (snd (Legacy.data this (snd (Legacy.refresh this s)))) = [].
Proof.
  intros this s.
  destruct (legacy_refresh_fills_both_caches this s) as (_ & _ & _ & Hd);
    [simpl; lia|].
  rewrite Hd. unfold Legacy.calls_since. apply drop_all.
Defined.

(** X21.  In the first version, an [append()] of a positional row on a
    fetched grid pushes the row onto the cached grid as soon as the remote
    call returns, without refetching, whether or not the response reports
    an updated row: even when [append()] fails because no row was updated,
    the next [rows()] shows the row, sanitized, without a remote call. *)
Theorem legacy_append_pushes_row_on_cache
    {R : Type} `{RemoteSource R} (this : Gsheet) (s : Legacy.State R)
    (grid : list Legacy.AnyRow) (row : list Value) (updatedRows : option Z) :
  Legacy.cache s = Some (Legacy.Fulfilled grid) ->
  fst (values_append (Legacy.remote s) (spreadsheetId this) (range this) row)
  = AppendReturns updatedRows ->
  let s' := snd (Legacy.append this (InputRowArray row) s) in
  fst (Legacy.append this (InputRowArray row) s)
  = (if no_row_updated updatedRows
     then Legacy.Rejected (Legacy.Common FailedToSave)
     else Legacy.Fulfilled updatedRows)
  /\ Legacy.cache s' = Some (Legacy.Fulfilled (grid ++ [row]))
  /\ Legacy.calls_since s s' = [ValuesAppend (spreadsheetId this) (range this) row]
  /\ Legacy.rows this s'
     = (Legacy.Fulfilled
          (map (fun r => map (sanitize_value (sanitize this)) r)
             (JsArray.slice_from (grid ++ [row]) (headerRows this))), s').
Proof.
  intros Eca Ev s'.
  assert (Hs : fst (Legacy.append this (InputRowArray row) s)
               = (if no_row_updated updatedRows
                  then Legacy.Rejected (Legacy.Common FailedToSave)
                  else Legacy.Fulfilled updatedRows)
               /\ Legacy.cache s' = Some (Legacy.Fulfilled (grid ++ [row]))
               /\ Legacy.calls s'
                  = Legacy.calls s ++ [ValuesAppend (spreadsheetId this) (range this) row]).
  { unfold s', Legacy.append, Legacy.input_row, Legacy.lbind. simpl.
    destruct (values_append (Legacy.remote s) (spreadsheetId this) (range this) row)
      as [resp r']. simpl in Ev. subst resp. simpl. rewrite Eca.
    destruct (no_row_updated updatedRows); simpl; auto. }
  destruct Hs as (Hr & Hc & Hl).
  split; [exact Hr|]. split; [exact Hc|].
  split; [apply legacy_calls_since_app; exact Hl|].
  rewrite (rows_cached this s' _ Hc). reflexivity.
Qed.

Lemma legacy_append_pushes_row_on_cache_witness :
  let this := instance_of example_options in
  let s := Legacy.create example_options rejecting_sheet in
  let row := [VString " Bob "; VString "bob@x.com"] in
  fst (Legacy.append this (InputRowArray row) s)
  = Legacy.Rejected (Legacy.Common FailedToSave)
  /\ fst (Legacy.rows this (snd (Legacy.append this (InputRowArray row) s)))
     = Legacy.Fulfilled [[VString "Ada"; VString "ada@x.com"];
                         [VString EmptyString; VString "b@x.com"];
                         [VString "Bob"; VString "bob@x.com"]].
Proof.
  intros this s row.
  assert (Eca : Legacy.cache s
                = Some (Legacy.Fulfilled
                          (Legacy.of_grid [["Name"; "Email"]; ["Ada"; "ada@x.com"];
                                           [EmptyString; "b@x.com"]])))
    by reflexivity.
  assert (Ev : fst (values_append (Legacy.remote s) (spreadsheetId this) (range this) row)
               = AppendReturns (Some 0%Z)) by reflexivity.
  destruct (legacy_append_pushes_row_on_cache this s _ row (Some 0%Z) Eca Ev)
    as (Hr & _ & _ & Hrows).
  split; [exact Hr|]. rewrite Hrows. reflexivity.
Defined.

(** X22.  In the first version, when the cached fetch has failed,
    [append()] of a positional row still sends the row to the remote and
    then fails with the error of that earlier fetch, whatever the remote
    answered about the row. *)
Theorem legacy_append_after_failed_fetch
    {R : Type} `{RemoteSource R} (this : Gsheet) (s : Legacy.State R)
    (e : Legacy.LegacyError) (row : list Value) (updatedRows : option Z) :
  Legacy.cache s = Some (Legacy.Rejected e) ->
  fst (values_append (Legacy.remote s) (spreadsheetId this) (range this) row)
  = AppendReturns updatedRows ->
  fst (Legacy.append this (InputRowArray row) s) = Legacy.Rejected e
  /\ Legacy.calls_since s (snd (Legacy.append this (InputRowArray row) s))
     = [ValuesAppend (spreadsheetId this) (range this) row]
  /\ Legacy.cache (snd (Legacy.append this (InputRowArray row) s))
     = Some (Legacy.Rejected e).
Proof.
  intros Eca Ev.
  unfold Legacy.append, Legacy.input_row, Legacy.lbind, Legacy.calls_since. simpl.
  destruct (values_append (Legacy.remote s) (spreadsheetId this) (range this) row)
    as [resp r']. simpl in Ev. subst resp. simpl. rewrite Eca. simpl.
  split; [reflexivity|]. split; [apply drop_app_length | reflexivity].
Qed.

(** X23.  In the first version the reducer of [data()] assigns
    [obj[keys[index]]] without looking at the key: in a row with more cells
    than there are columns, the cells beyond the last column are written
    under the property name [undefined], where the last cell of the row
    remains. *)
Theorem legacy_cells_beyond_columns
    (keys : list string) (row : list Value) :
  (length keys < length row)%nat ->
  Legacy.own (Legacy.reduce_row keys 0 row Legacy.empty_object) !! "undefined"
  = last row.
Proof.
  intros Hlen. apply reduce_row_overflow; [|simpl; lia].
  destruct row; [simpl in Hlen; lia | discriminate].
Qed.

Lemma legacy_cells_beyond_columns_witness :
  Legacy.own (Legacy.reduce_row ["Name"; "Email"] 0
                [VString "Ada"; VString "ada@x.com"; VString "x"; VString "y"]
                Legacy.empty_object) !! "undefined"
  = Some (VString "y").
Proof.
  apply (legacy_cells_beyond_columns ["Name"; "Email"]
           [VString "Ada"; VString "ada@x.com"; VString "x"; VString "y"]).
  simpl. lia.
Defined.

Lemma trim_string_empty_iff_blank_witness :
  trim_string (String "009" (String "010" " ")) = EmptyString.
Proof.
  apply (proj2 (trim_string_empty_iff_blank (String "009" (String "010" " ")))).
  reflexivity.
Defined.

Lemma append_resolves_iff_witness :
  fst (append (instance_of example_options)
         (InputRowArray [VString "Bob"; VString "bob@x.com"])
         (constructor example_options example_sheet))
  = Ok (Some 1%Z).
Proof.
  apply (proj2 (append_resolves_iff (instance_of example_options)
                  (InputRowArray [VString "Bob"; VString "bob@x.com"])
                  (constructor example_options example_sheet) (Some 1%Z))).
  exists [VString "Bob"; VString "bob@x.com"], 1%Z.
  split; [reflexivity|]. split; [reflexivity|]. split; [reflexivity | lia].
Defined.

Lemma row_object_bounded_witness :
  "Email" ∈ ["Name"; "Email"].
Proof.
  apply (proj2 (row_object_bounded ["Name"; "Email"] ["Ada"; "ada@x.com"; "extra"])).
  exists "ada@x.com". reflexivity.
Defined.

Lemma legacy_failed_fetch_is_cached_witness :
  let this := instance_of cold_options in
  let s := Legacy.create cold_options empty_sheet in
  fst (Legacy.refresh this s) = Legacy.Rejected (Legacy.Common NoDataFound)
  /\ Legacy.rows this (snd (Legacy.refresh this s))
     = (Legacy.Rejected (Legacy.Common NoDataFound), snd (Legacy.refresh this s)).
Proof.
  intros this s.
  assert (Er : fst (Legacy.refresh this s) = Legacy.Rejected (Legacy.Common NoDataFound))
    by reflexivity.
  split; [exact Er|].
  exact (proj1 (legacy_failed_fetch_is_cached this s _ Er)).
Defined.

Lemma legacy_append_after_failed_fetch_witness :
  let this := instance_of example_options in
  let s := Legacy.create example_options empty_sheet in
  Legacy.cache s = Some (Legacy.Rejected (Legacy.Common NoDataFound))
  /\ fst (Legacy.append this (InputRowArray [VString "Bob"]) s)
     = Legacy.Rejected (Legacy.Common NoDataFound)
  /\ Legacy.calls_since s (snd (Legacy.append this (InputRowArray [VString "Bob"]) s))
     = [ValuesAppend "sheet-1" "Sheet1" [VString "Bob"]].
Proof.
  intros this s.
  assert (Eca : Legacy.cache s = Some (Legacy.Rejected (Legacy.Common NoDataFound)))
    by reflexivity.
  assert (Ev : fst (values_append (Legacy.remote s) (spreadsheetId this) (range this)
                      [VString "Bob"]) = AppendReturns (Some 1%Z)) by reflexivity.
  split; [exact Eca|].
  destruct (legacy_append_after_failed_fetch this s _ [VString "Bob"] (Some 1%Z) Eca Ev)
    as (Hr & Hc & _).
  split; [exact Hr | exact Hc].
Defined.

(** X24.  In the first version only [refresh()] replaces the cached header
    row: with [headerRows > 0] and the column cache set, [_columns()] gives
    the same answer after a firing of the timer and after an [append()] of
    a positional row as before, although both may have changed the cached
    grid. *)
Theorem legacy_header_survives_timer_and_append
    {R : Type} `{RemoteSource R} (this : Gsheet) (s : Legacy.State R)
    (header : Legacy.Promise (option RowArray)) :
  (0 < headerRows this)%Z ->
  Legacy.columnCache s = Some header ->
  fst (Legacy._columns this (snd (Legacy.tick this s))) = fst (Legacy._columns this s)
  /\ forall row,
       fst (Legacy._columns this (snd (Legacy.append this (InputRowArray row) s)))
       = fst (Legacy._columns this s).
Proof.
  intros Hh Ecc.
  assert (Htick : Legacy.columnCache (snd (Legacy.tick this s)) = Some header).
  { unfold Legacy.tick. destruct (Legacy.timer s); [|exact Ecc].
    pose proof (fetch_frame this (range this) s) as (_ & _ & Hc & _).
    destruct (Legacy._fetch this (range this) s) as [[g|e] s1]; simpl in *; congruence. }
  assert (Happ : forall row,
             Legacy.columnCache (snd (Legacy.append this (InputRowArray row) s))
             = Some header).
  { intros row. unfold Legacy.append, Legacy.input_row, Legacy.lbind. simpl.
    destruct (values_append (Legacy.remote s) (spreadsheetId this) (range this) row)
      as [[reason|n] r']; simpl; [exact Ecc|].
    destruct (Legacy.cache s) as [[g|e]|]; simpl; try exact Ecc;
      destruct (no_row_updated n); exact Ecc. }
  split.
  - rewrite (columns_cached this _ header Hh Htick), (columns_cached this s header Hh Ecc).
    reflexivity.
  - intros row.
    rewrite (columns_cached this _ header Hh (Happ row)),
      (columns_cached this s header Hh Ecc).
    reflexivity.
Qed.

Lemma legacy_header_survives_timer_and_append_witness :
  let this := instance_of example_options in
  let s := Legacy.create example_options example_sheet in
  fst (Legacy._columns this
         (snd (Legacy.append this (InputRowArray [VString "Bob"]) s)))
  = Legacy.Fulfilled ["Name"; "Email"].
Proof.
  intros this s.
  assert (Hh : (0 < headerRows this)%Z) by (simpl; lia).
  assert (Ecc : Legacy.columnCache s = Some (Legacy.Fulfilled (Some ["Name"; "Email"])))
    by reflexivity.
  rewrite (proj2 (legacy_header_survives_timer_and_append this s _ Hh Ecc) [VString "Bob"]).
  reflexivity.
Defined.
